(** * clean-html: the tree-simplification pipeline of [main.py]

    A shallow embedding of [clean_html] and of the passes it runs over a
    BeautifulSoup tree: tag removal, comment removal, attribute filtering,
    [minimize_nesting] and [remove_empty_tags].

    The parser that builds the tree and the serializer that prints it
    belong to the [bs4] library; the passes are embedded over the tree the
    parser returns, with the library calls the script makes ([find_all],
    [unwrap], [decompose], [extract], [contents], [attrs], [strip]) written
    out as functions on that tree. *)

From Stdlib Require Import List String Ascii Bool Arith NArith Lia.
Import ListNotations.
Open Scope string_scope.
Open Scope list_scope.


(** ** Python strings *)

(** Tag names, attribute names and attribute values are only compared for
    equality, and are kept as [string].  The payload of a string node is
    inspected character by character by [str.strip], so it is kept as the
    sequence of its code points. *)
Definition pystr := list N.

Definition py (s : string) : pystr :=
  map N_of_ascii (list_ascii_of_string s).

Definition in_range (lo hi c : N) : bool := (lo <=? c)%N && (c <=? hi)%N.

(** [str.isspace] on one code point: the characters [str.strip()] removes. *)
Definition py_isspace (c : N) : bool :=
  in_range 9 13 c || in_range 28 32 c || (c =? 133)%N || (c =? 160)%N
  || (c =? 5760)%N || in_range 8192 8202 c || in_range 8232 8233 c
  || (c =? 8239)%N || (c =? 8287)%N || (c =? 12288)%N.

Fixpoint lstrip (s : pystr) : pystr :=
  match s with
  | [] => []
  | c :: r => if py_isspace c then lstrip r else s
  end.

Definition rstrip (s : pystr) : pystr := rev (lstrip (rev s)).

Definition strip (s : pystr) : pystr := rstrip (lstrip s).

(** Truth value of a Python string: the empty string is falsy. *)
Definition truthy (s : pystr) : bool :=
  match s with [] => false | _ :: _ => true end.

(** [k in keep] for a set of strings. *)
Definition mem (k : string) (l : list string) : bool :=
  existsb (String.eqb k) l.

(** [name.count(':')] and [name.split(':', 1)]. *)
Fixpoint count_colon (s : string) : nat :=
  match s with
  | EmptyString => 0
  | String c r => (if Ascii.eqb c ":"%char then 1 else 0) + count_colon r
  end.

Fixpoint split_colon (s : string) : string * string :=
  match s with
  | EmptyString => (EmptyString, EmptyString)
  | String c r =>
      if Ascii.eqb c ":"%char then (EmptyString, r)
      else let (a, b) := split_colon r in (String c a, b)
  end.

(** ** The document tree *)

(** The class of a string node.  The classes of [bs4.element] are all
    subclasses of [NavigableString]; [Plain] is that class itself. *)
Inductive string_class : Type :=
| Plain | Comment | CData | ProcessingInstruction | Declaration | Doctype
| Stylesheet | Script | TemplateString.

(** An attribute value is a string, or a list of strings for the
    multi-valued attributes ([class], [rel], ...). *)
Inductive attr_value : Type :=
| AttrStr (v : string)
| AttrList (vs : list string).

Definition attrs_t := list (string * attr_value).

Unset Elimination Schemes.
Inductive node : Type :=
| Tag (name : string) (prefix : option string) (attrs : attrs_t)
      (contents : list node)
| NavigableString (cls : string_class) (payload : pystr).
Set Elimination Schemes.

(** The [BeautifulSoup] object is the root of the tree.  It has no parent
    and is not one of its own descendants. *)
Record BeautifulSoup : Type := Soup { root_contents : list node }.

(** Induction over a tree, with the hypothesis for every child of a tag. *)
Section NodeInduction.

Variable P : node -> Prop.
Hypothesis P_tag : forall nm pf at_ cs, Forall P cs -> P (Tag nm pf at_ cs).
Hypothesis P_str : forall k s, P (NavigableString k s).

Fixpoint node_ind (n : node) : P n :=
  match n with
  | Tag nm pf at_ cs =>
      P_tag nm pf at_ cs
        ((fix all (l : list node) : Forall P l :=
            match l with
            | [] => Forall_nil P
            | c :: r => Forall_cons c (node_ind c) (all r)
            end) cs)
  | NavigableString k s => P_str k s
  end.

End NodeInduction.

Definition is_tag (n : node) : bool :=
  match n with Tag _ _ _ _ => true | NavigableString _ _ => false end.

Definition is_comment (n : node) : bool :=
  match n with NavigableString Comment _ => true | _ => false end.

Definition node_contents (n : node) : list node :=
  match n with Tag _ _ _ cs => cs | NavigableString _ _ => [] end.

Definition node_attrs (n : node) : attrs_t :=
  match n with Tag _ _ at_ _ => at_ | NavigableString _ _ => [] end.

Definition node_name (n : node) : option string :=
  match n with Tag nm _ _ _ => Some nm | NavigableString _ _ => None end.

Definition set_contents (n : node) (cs : list node) : node :=
  match n with
  | Tag nm pf at_ _ => Tag nm pf at_ cs
  | NavigableString _ _ => n
  end.

(** Number of nodes of a subtree and of a sequence of subtrees. *)
Fixpoint node_size (n : node) : nat :=
  match n with
  | Tag _ _ _ cs => S (list_sum (map node_size cs))
  | NavigableString _ _ => 1
  end.

Definition forest_size (s : list node) : nat := list_sum (map node_size s).

(** ** Positions *)

(** A tag object handed out by [find_all] is a reference into the tree.
    It is represented by its position: the child indices leading to it
    from the root. *)
Definition path := list nat.

Fixpoint get (s : list node) (p : path) {struct p} : option node :=
  match p with
  | [] => None
  | i :: q =>
      match nth_error s i with
      | None => None
      | Some n =>
          match q with
          | [] => Some n
          | _ :: _ => get (node_contents n) q
          end
      end
  end.

(** The child sequence at a position; the empty position is the root. *)
Definition children_at (s : list node) (p : path) : option (list node) :=
  match p with
  | [] => Some s
  | _ :: _ => option_map node_contents (get s p)
  end.

(** Replace the node at position [p] by the nodes [f] makes of it. *)
Fixpoint replace_at (f : node -> list node) (s : list node) (p : path)
  {struct p} : list node :=
  match p with
  | [] => s
  | i :: q =>
      match nth_error s i with
      | None => s
      | Some n =>
          match q with
          | [] => firstn i s ++ f n ++ skipn (S i) s
          | _ :: _ =>
              firstn i s
              ++ set_contents n (replace_at f (node_contents n) q)
              :: skipn (S i) s
          end
      end
  end.

(** [Tag.unwrap()]: the tag is replaced, where it stands, by its contents. *)
Definition unwrap (s : list node) (p : path) : list node :=
  replace_at node_contents s p.

(** [Tag.decompose()]: the tag is detached and destroyed with its subtree. *)
Definition decompose (s : list node) (p : path) : list node :=
  replace_at (fun _ => []) s p.

(** ** [find_all] *)

Fixpoint tags_from (f : node -> list path) (i : nat) (s : list node)
  : list path :=
  match s with
  | [] => []
  | n :: r => map (cons i) (f n) ++ tags_from f (S i) r
  end.

(** Positions of the tags of a subtree in document order, relative to the
    parent of its root: [[]] is the root of the subtree. *)
Fixpoint tag_paths (n : node) : list path :=
  match n with
  | Tag _ _ _ cs => [] :: tags_from tag_paths 0 cs
  | NavigableString _ _ => []
  end.

(** [soup.find_all(True)]: every [Tag] below the root, in document order. *)
Definition find_all_True (s : list node) : list path :=
  tags_from tag_paths 0 s.

(** The test [find_all(name)] applies to each element for a string [name]:
    the element's name is [name], or [name] reads [prefix:local] and the
    element has that local name and that prefix. *)
Definition name_matches (query : string) (n : node) : bool :=
  match n with
  | Tag nm pf _ _ =>
      String.eqb nm query
      || (if Nat.eqb (count_colon query) 1 then
            let (p, local) := split_colon query in
            String.eqb nm local
            && match pf with Some q => String.eqb q p | None => false end
          else String.eqb nm query)
  | NavigableString _ _ => false
  end.

(** ** The passes *)

(** Deleting every node a test selects, each with its subtree.
    [find_all] collects the matching nodes before the first of them is
    removed; a match inside an already removed subtree is gone with it. *)
Fixpoint remove_node (m : node -> bool) (n : node) : list node :=
  if m n then []
  else match n with
       | Tag nm pf at_ cs => [Tag nm pf at_ (flat_map (remove_node m) cs)]
       | NavigableString _ _ => [n]
       end.

Definition remove_nodes (m : node -> bool) (s : list node) : list node :=
  flat_map (remove_node m) s.

(** [for name in args.remove_tag: for t in soup.find_all(name): t.decompose()] *)
Definition remove_tags (names : list string) (s : list node) : list node :=
  fold_left (fun t name => remove_nodes (name_matches name) t) names s.

(** What [soup.find_all(string=f)] finds: the search hands a string node
    to [f] unless the string is empty, which it skips as falsy; a tag has
    no part in a search by string alone. *)
Definition found_string (f : node -> bool) (n : node) : bool :=
  match n with
  | NavigableString _ payload => truthy payload && f n
  | Tag _ _ _ _ => false
  end.

(** [for c in soup.find_all(string=lambda t: isinstance(t, Comment)): c.extract()] *)
Definition remove_comments (s : list node) : list node :=
  remove_nodes (found_string is_comment) s.

(** [tag.attrs = {k: v for k, v in tag.attrs.items() if k in keep}] *)
Definition keep_only (keep : list string) (at_ : attrs_t) : attrs_t :=
  filter (fun kv => mem (fst kv) keep) at_.

Fixpoint strip_attrs_node (keep : list string) (n : node) : node :=
  match n with
  | Tag nm pf at_ cs =>
      Tag nm pf (keep_only keep at_) (map (strip_attrs_node keep) cs)
  | NavigableString _ _ => n
  end.

Definition strip_attrs (keep : list string) (s : list node) : list node :=
  map (strip_attrs_node keep) s.

(** [isinstance(c, NavigableString) and not c.strip()] *)
Definition insignificant (c : node) : bool :=
  match c with
  | NavigableString _ payload => negb (truthy (strip payload))
  | Tag _ _ _ _ => false
  end.

Definition _significant_children (tag : node) : list node :=
  filter (fun c => negb (insignificant c)) (node_contents tag).

(** The test of the scan of [minimize_nesting] that lets a tag through to
    [tag.unwrap()]. *)
Definition is_wrapper (same_name_only : bool) (tag : node) : bool :=
  match tag, _significant_children tag with
  | Tag nm _ at_ _, [Tag child_name _ _ _] =>
      match at_ with
      | [] => negb (same_name_only && negb (String.eqb child_name nm))
      | _ :: _ => false
      end
  | _, _ => false
  end.

(** The test of the scan of [remove_empty_tags]. *)
Definition is_empty (tag : node) : bool :=
  match _significant_children tag with [] => true | _ :: _ => false end.

Definition holds_at (t : node -> bool) (s : list node) (p : path) : bool :=
  match get s p with Some n => t n | None => false end.

(** One round of a [while changed] loop: the [for] scan runs over the
    tags in document order up to the first one that passes the test,
    mutates the tree there and breaks. *)
Definition scan (t : node -> bool) (s : list node) : option path :=
  find (holds_at t s) (find_all_True s).

(** The loops return the tree and the number of mutations they made.
    Every round but the last one removes a node, so one round more than
    the tree has nodes is enough for the loop to leave by its own test
    ([minimize_loop_exit], [remove_empty_loop_exit]). *)
Fixpoint minimize_loop (rounds : nat) (same_name_only : bool)
  (s : list node) : list node * nat :=
  match rounds with
  | 0 => (s, 0)
  | S r =>
      match scan (is_wrapper same_name_only) s with
      | Some p =>
          let (s', k) := minimize_loop r same_name_only (unwrap s p) in
          (s', S k)
      | None => (s, 0)
      end
  end.

Fixpoint remove_empty_loop (rounds : nat) (s : list node) : list node * nat :=
  match rounds with
  | 0 => (s, 0)
  | S r =>
      match scan is_empty s with
      | Some p =>
          let (s', k) := remove_empty_loop r (decompose s p) in (s', S k)
      | None => (s, 0)
      end
  end.

Definition minimize_nesting (same_name_only : bool) (soup : BeautifulSoup)
  : BeautifulSoup :=
  let s := root_contents soup in
  Soup (fst (minimize_loop (S (forest_size s)) same_name_only s)).

Definition remove_empty_tags (soup : BeautifulSoup) : BeautifulSoup :=
  let s := root_contents soup in
  Soup (fst (remove_empty_loop (S (forest_size s)) s)).

(** ** Configuration and [clean_html] *)

(** The options of [parse_args] that [clean_html] reads. *)
Module Args.

Record t : Type := Make {
  parser : string;
  remove_tag : list string;
  keep_attr : option (list string);
  remove_comments : bool;
  same_name_only : bool;
  minimize_nesting : bool;
  remove_empty : bool;
  prettify : bool
}.

(** The defaults of [parse_args]. *)
Definition default : t :=
  Make "html.parser" ["style"; "span"; "meta"; "script"]
       (Some ["href"; "src"; "alt"]) true true true true true.

End Args.

(** [set(args.keep_attr or [])] *)
Definition keep_set (args : Args.t) : list string :=
  match Args.keep_attr args with Some l => l | None => [] end.

(** The body of [clean_html] between parsing and serialization. *)
Definition clean_tree (args : Args.t) (soup : BeautifulSoup) : BeautifulSoup :=
  let soup := Soup (remove_tags (Args.remove_tag args) (root_contents soup)) in
  let soup :=
    if Args.remove_comments args
    then Soup (remove_comments (root_contents soup)) else soup in
  let soup := Soup (strip_attrs (keep_set args) (root_contents soup)) in
  let soup :=
    if Args.minimize_nesting args
    then minimize_nesting (Args.same_name_only args) soup else soup in
  let soup :=
    if Args.remove_empty args then remove_empty_tags soup else soup in
  soup.

Section CleanHtml.

(** The library's parser and serializers: [BeautifulSoup(html, parser)],
    [soup.prettify()] and [str(soup)]. *)
Variable parse : string -> string -> BeautifulSoup.
Variable prettify : BeautifulSoup -> string.
Variable to_str : BeautifulSoup -> string.

Definition clean_html (html_content : string) (args : Args.t) : string :=
  let soup := clean_tree args (parse html_content (Args.parser args)) in
  if Args.prettify args then prettify soup else to_str soup.

End CleanHtml.

(** ** The command line: [parse_args], [read_input] and [main] *)

(** What [parser.parse_args()] hands back: the two paths and the options
    [clean_html] reads. *)
Module Namespace.

Record t : Type := Make {
  input : option string;
  output : option string;
  options : Args.t
}.

End Namespace.

(** What the script asks of its surroundings: [stdin.isatty()],
    [stdin.read()], [os.path.isfile], [os.path.isdir], [os.path.exists],
    the text [open(path, "r", encoding="utf-8", errors="replace").read()]
    returns ([None] when [open] raises), whether [open(path, "w")]
    succeeds, whether the calls [clean_html] makes into the library
    return (a parser that is not installed raises), whether
    [print(text)] returns and whether [f.write(text)] and the closing of
    the file do (a text the encoder refuses raises). *)
Record World : Type := {
  stdin_isatty : bool;
  stdin_read : string;
  isfile : string -> bool;
  isdir : string -> bool;
  path_exists : string -> bool;
  read_text : string -> option string;
  writable : string -> bool;
  cleans : string -> Args.t -> bool;
  prints : string -> bool;
  writes : string -> string -> bool
}.

(** The exceptions that end a run.  [parser.error] reports on the standard
    error stream and exits with status 2.  [OtherException] stands for
    what the library, the encoder or the output stream raise. *)
Inductive exn : Type :=
| SystemExit (code : nat)
| FileNotFoundError (msg : string)
| IsADirectoryError (msg : string)
| OSError
| OtherException.

(** What a run leaves behind, in the order it happens.  [FileOpen] is the
    opening of a file for writing, which creates it empty or empties it;
    [FileWrite] is the text written to it. *)
Inductive event : Type :=
| Stderr (line : string)
| ParserError (message : string)
| Stdout (line : string)
| FileOpen (path : string)
| FileWrite (path content : string).

(** A computation that reports events and returns or raises. *)
Definition prog (A : Type) : Type := list event * (exn + A).

Definition ret {A : Type} (a : A) : prog A := ([], inr a).

Definition raise {A : Type} (e : exn) : prog A := ([], inl e).

Definition emit (ev : event) : prog unit := ([ev], inr tt).

Definition bind {A B : Type} (m : prog A) (f : A -> prog B) : prog B :=
  match m with
  | (tr, inl e) => (tr, inl e)
  | (tr, inr a) => let (tr', r) := f a in (tr ++ tr', r)
  end.

Notation "x <- m ;; k" := (bind m (fun x => k))
  (at level 61, m at next level, right associativity).
Notation "m ;; k" := (bind m (fun _ => k))
  (at level 61, right associativity).

(** [if c: body] *)
Definition when (c : bool) (body : prog unit) : prog unit :=
  if c then body else ret tt.

(** Truth value of [args.input]: [None] and the empty string are falsy. *)
Definition given (o : option string) : bool :=
  match o with Some (String _ _) => true | _ => false end.

(** [o or d] *)
Definition or_else (o : option string) (d : string) : string :=
  if given o then match o with Some s => s | None => d end else d.

(** The path an option holds, for the calls made once it is known to be
    there. *)
Definition path_of (o : option string) : string :=
  match o with Some s => s | None => EmptyString end.

(** [parse_args], from the namespace [parser.parse_args()] returned. *)
Definition parse_args (w : World) (args : Namespace.t) : prog Namespace.t :=
  let stdin_piped := negb (stdin_isatty w) in
  when (given (Namespace.input args) && stdin_piped)
       (emit (Stderr "error: both --input and stdin were provided; choose one") ;;
        raise (SystemExit 2)) ;;
  when (negb (given (Namespace.input args)) && negb stdin_piped)
       (emit (ParserError
                "Provide --input FILE or pipe html into stdin (e.g. cat file | script).") ;;
        raise (SystemExit 2)) ;;
  when (given (Namespace.input args))
       (when (negb (isfile w (path_of (Namespace.input args))))
             (raise (FileNotFoundError
                       ("file not found: " ++ path_of (Namespace.input args))))) ;;
  match Namespace.output args with
  | Some out =>
      when (isdir w out)
           (raise (IsADirectoryError ("output is a directory: " ++ out))) ;;
      when (path_exists w out)
           (emit (Stderr ("error: output file exists: " ++ out)) ;;
            raise (SystemExit 1))
  | None => ret tt
  end ;;
  emit (Stderr ("input: " ++ or_else (Namespace.input args) "<stdin>")) ;;
  emit (Stderr ("output: " ++ or_else (Namespace.output args) "-")) ;;
  ret args.

Definition read_input (w : World) (args : Namespace.t) : prog string :=
  if given (Namespace.input args) then
    match read_text w (path_of (Namespace.input args)) with
    | Some content => ret content
    | None => raise OSError
    end
  else ret (stdin_read w).

Section Main.

Variable parse : string -> string -> BeautifulSoup.
Variable prettify : BeautifulSoup -> string.
Variable to_str : BeautifulSoup -> string.

Definition main (w : World) (parsed : Namespace.t) : prog unit :=
  args <- parse_args w parsed ;;
  html <- read_input w args ;;
  out_text <-
    (if cleans w html (Namespace.options args)
     then ret (clean_html parse prettify to_str html (Namespace.options args))
     else raise OtherException) ;;
  match Namespace.output args with
  | None =>
      if prints w out_text then emit (Stdout out_text)
      else raise OtherException
  | Some out =>
      (if writable w out then emit (FileOpen out) else raise OSError) ;;
      if writes w out out_text then emit (FileWrite out out_text)
      else raise OtherException
  end.

End Main.

(** ** Vocabulary of the properties *)

(** A test holds of every node of a subtree, of a sequence of subtrees. *)
Fixpoint all_nodes (t : node -> bool) (n : node) : bool :=
  t n && match n with
         | Tag _ _ _ cs => forallb (all_nodes t) cs
         | NavigableString _ _ => true
         end.

Definition all_forest (t : node -> bool) (s : list node) : bool :=
  forallb (all_nodes t) s.

(** No tag of the tree passes the test [t]. *)
Definition no_tag (t : node -> bool) (s : list node) : bool :=
  all_forest (fun n => negb (is_tag n && t n)) s.

(** The Wrapper Collapser with the choice left open: the wrappers at the
    chosen positions are unwrapped one after the other; the run is void
    when a chosen position holds no wrapper at its turn. *)
Fixpoint unwrap_in_order (same_name_only : bool) (choice : list path)
  (s : list node) : option (list node) :=
  match choice with
  | [] => Some s
  | p :: rest =>
      if holds_at (is_wrapper same_name_only) s p
      then unwrap_in_order same_name_only rest (unwrap s p)
      else None
  end.

(** The tree [minimize_nesting] ends on, computed in one pass from the
    leaves up ([minimize_nesting_collapse]). *)
Fixpoint collapse_node (same_name_only : bool) (n : node) : list node :=
  match n with
  | Tag nm pf at_ cs =>
      let cs' := flat_map (collapse_node same_name_only) cs in
      if is_wrapper same_name_only (Tag nm pf at_ cs') then cs'
      else [Tag nm pf at_ cs']
  | NavigableString _ _ => [n]
  end.

Definition collapse (same_name_only : bool) (s : list node) : list node :=
  flat_map (collapse_node same_name_only) s.

(** The tree [remove_empty_tags] ends on, computed in one pass from the
    leaves up ([remove_empty_tags_prune]). *)
Fixpoint prune_node (n : node) : list node :=
  match n with
  | Tag nm pf at_ cs =>
      let cs' := flat_map prune_node cs in
      if is_empty (Tag nm pf at_ cs') then [] else [Tag nm pf at_ cs']
  | NavigableString _ _ => [n]
  end.

Definition prune (s : list node) : list node := flat_map prune_node s.

(** What the wrapper test and the emptiness test see of a child
    sequence: its significant children, a tag by its name (by nothing
    when names are not compared), a string as such. *)
Definition child_key (same_name_only : bool) (c : node) : option string :=
  match c with
  | Tag nm _ _ _ => Some (if same_name_only then nm else EmptyString)
  | NavigableString _ _ => None
  end.

Definition shape (same_name_only : bool) (cs : list node)
  : list (option string) :=
  map (child_key same_name_only)
      (filter (fun c => negb (insignificant c)) cs).

(** Two configurations that differ in the order and the repetitions of
    [remove_tag] and [keep_attr] only. *)
Definition same_members (l1 l2 : list string) : bool :=
  forallb (fun x => mem x l2) l1 && forallb (fun x => mem x l1) l2.

Definition same_config (a1 a2 : Args.t) : bool :=
  String.eqb (Args.parser a1) (Args.parser a2)
  && same_members (Args.remove_tag a1) (Args.remove_tag a2)
  && same_members (keep_set a1) (keep_set a2)
  && Bool.eqb (Args.remove_comments a1) (Args.remove_comments a2)
  && Bool.eqb (Args.same_name_only a1) (Args.same_name_only a2)
  && Bool.eqb (Args.minimize_nesting a1) (Args.minimize_nesting a2)
  && Bool.eqb (Args.remove_empty a1) (Args.remove_empty a2)
  && Bool.eqb (Args.prettify a1) (Args.prettify a2).

(** A test that does not look at the contents of a node; one that looks
    at them through their shape only; one that looks at neither the
    contents nor the attributes. *)
Definition shallow (t : node -> bool) : Prop :=
  forall n cs, t (set_contents n cs) = t n.

Definition by_shape (same_name_only : bool) (t : node -> bool) : Prop :=
  forall n cs,
    shape same_name_only cs = shape same_name_only (node_contents n) ->
    t (set_contents n cs) = t n.

Definition by_name (t : node -> bool) : Prop :=
  forall nm pf at1 at2 cs1 cs2,
    t (Tag nm pf at1 cs1) = t (Tag nm pf at2 cs2).

(** [find_all] matches for one of the names of a list. *)
Definition matches_any (names : list string) (n : node) : bool :=
  existsb (fun q => name_matches q n) names.

(** The attribute names of a node are all in [keep]. *)
Definition attrs_within (keep : list string) (n : node) : bool :=
  forallb (fun kv => mem (fst kv) keep) (node_attrs n).

(** The passes of [clean_tree] before the loops, and the loops, each by
    its one-pass form. *)
Definition front (args : Args.t) (s : list node) : list node :=
  let s := remove_nodes (matches_any (Args.remove_tag args)) s in
  let s :=
    if Args.remove_comments args
    then remove_nodes (found_string is_comment) s else s in
  strip_attrs (keep_set args) s.

Definition back (args : Args.t) (s : list node) : list node :=
  let s :=
    if Args.minimize_nesting args
    then collapse (Args.same_name_only args) s else s in
  if Args.remove_empty args then prune s else s.

(** What the passes before the loops leave behind. *)
Definition cleaned (args : Args.t) (s : list node) : Prop :=
  all_forest (fun n => negb (matches_any (Args.remove_tag args) n)) s = true
  /\ (Args.remove_comments args = true ->
      all_forest (fun n => negb (found_string is_comment n)) s = true)
  /\ all_forest (attrs_within (keep_set args)) s = true.

(** ** Further vocabulary *)

(** The string nodes of a tree in document order, and the significant
    ones among them. *)
Fixpoint strings_of_node (n : node) : list node :=
  match n with
  | Tag _ _ _ cs => flat_map strings_of_node cs
  | NavigableString _ _ => [n]
  end.

Definition strings_of (s : list node) : list node :=
  flat_map strings_of_node s.

Definition significant_strings (s : list node) : list node :=
  filter (fun c => negb (insignificant c)) (strings_of s).

(** The names of the tags of a tree in document order. *)
Fixpoint tag_names_node (n : node) : list string :=
  match n with
  | Tag nm _ _ cs => nm :: flat_map tag_names_node cs
  | NavigableString _ _ => []
  end.

Definition tag_names (s : list node) : list string :=
  flat_map tag_names_node s.

(** The tags that carry an attribute, in document order, each by its
    name, prefix and attributes. *)
Fixpoint attributed_node (n : node)
  : list (string * option string * attrs_t) :=
  match n with
  | Tag nm pf at_ cs =>
      match at_ with
      | [] => flat_map attributed_node cs
      | _ :: _ => (nm, pf, at_) :: flat_map attributed_node cs
      end
  | NavigableString _ _ => []
  end.

Definition attributed (s : list node)
  : list (string * option string * attrs_t) :=
  flat_map attributed_node s.

(** How deep the tags of a tree nest. *)
Fixpoint depth_node (n : node) : nat :=
  match n with
  | Tag _ _ _ cs => S (list_max (map depth_node cs))
  | NavigableString _ _ => 0
  end.

Definition depth (s : list node) : nat := list_max (map depth_node s).

(** The tags of a tree that pass a test, counted over [find_all(True)]
    and counted over the tree. *)
Definition count_found (t : node -> bool) (s : list node) : nat :=
  List.length (filter (holds_at t s) (find_all_True s)).

Fixpoint count_node (t : node -> bool) (n : node) : nat :=
  match n with
  | Tag _ _ _ cs =>
      (if t n then 1 else 0) + list_sum (map (count_node t) cs)
  | NavigableString _ _ => 0
  end.

Definition count_forest (t : node -> bool) (s : list node) : nat :=
  list_sum (map (count_node t) s).

(** The events of a run that put out a result. *)
Definition is_output (ev : event) : bool :=
  match ev with
  | Stdout _ | FileOpen _ | FileWrite _ _ => true
  | Stderr _ | ParserError _ => false
  end.

(** The condition under which [parse_args] returns. *)
Definition acceptable (w : World) (args : Namespace.t) : bool :=
  xorb (given (Namespace.input args)) (negb (stdin_isatty w))
  && (negb (given (Namespace.input args))
      || isfile w (path_of (Namespace.input args)))
  && match Namespace.output args with
     | Some out => negb (isdir w out) && negb (path_exists w out)
     | None => true
     end.

(** What [main] does once [parse_args] has returned. *)
Section Delivery.

Variable parse : string -> string -> BeautifulSoup.
Variable prettify : BeautifulSoup -> string.
Variable to_str : BeautifulSoup -> string.

Definition deliver (w : World) (args : Namespace.t) : prog unit :=
  html <- read_input w args ;;
  out_text <-
    (if cleans w html (Namespace.options args)
     then ret (clean_html parse prettify to_str html (Namespace.options args))
     else raise OtherException) ;;
  match Namespace.output args with
  | None =>
      if prints w out_text then emit (Stdout out_text)
      else raise OtherException
  | Some out =>
      (if writable w out then emit (FileOpen out) else raise OSError) ;;
      if writes w out out_text then emit (FileWrite out out_text)
      else raise OtherException
  end.

End Delivery.

(** ** Sample trees and configurations *)

Definition text (s : string) : node := NavigableString Plain (py s).
Definition comment (s : string) : node := NavigableString Comment (py s).
Definition elem (nm : string) (at_ : attrs_t) (cs : list node) : node :=
  Tag nm None at_ cs.

(** The defaults with [-ka class], with [--no-remove-comments] and with
    [--no-remove-empty]. *)
Definition keep_class : Args.t :=
  Args.Make "html.parser" ["style"; "span"; "meta"; "script"]
            (Some ["href"; "src"; "alt"; "class"]) true true true true true.

Definition keep_comments : Args.t :=
  Args.Make "html.parser" ["style"; "span"; "meta"; "script"]
            (Some ["href"; "src"; "alt"]) false true true true true.

Definition prune_off : Args.t :=
  Args.Make "html.parser" ["style"; "span"; "meta"; "script"]
            (Some ["href"; "src"; "alt"]) true true true false true.

(** The defaults with the two lists in another order and with repeats. *)
Definition default_shuffled : Args.t :=
  Args.Make "html.parser" ["script"; "meta"; "span"; "style"; "span"]
            (Some ["alt"; "href"; "src"; "alt"]) true true true true true.

(** [<div class="x"><div>Hi</div></div>] *)
Definition scenario_D : BeautifulSoup :=
  Soup [elem "div" [("class", AttrList ["x"])] [elem "div" [] [text "Hi"]]].

(** [<div> <div>Hi</div>  </div>] *)
Definition padded : list node :=
  [elem "div" [] [text " "; elem "div" [] [text "Hi"]; text "  "]].

(** [<div><div><div>Hi</div></div></div>] *)
Definition nested3 : list node :=
  [elem "div" [] [elem "div" [] [elem "div" [] [text "Hi"]]]].

(** [<div><div>Hi</div><p></p></div>] *)
Definition exposed : BeautifulSoup :=
  Soup [elem "div" [] [elem "div" [] [text "Hi"]; elem "p" [] []]].

(** [<p><!-- --></p>] and [<div><!-- --><div>Hi</div></div>] *)
Definition blank_comment_only : BeautifulSoup :=
  Soup [elem "p" [] [comment " "]].

Definition blank_comment_wrapper : BeautifulSoup :=
  Soup [elem "div" [] [comment " "; elem "div" [] [text "Hi"]]].

(** [<a href="u" id="i"><span>x</span>t</a>] *)
Definition link : BeautifulSoup :=
  Soup [elem "a" [("href", AttrStr "u"); ("id", AttrStr "i")]
             [elem "span" [] [text "x"]; text "t"]].

(** A stand-in for the library's parser and serializers where a closed
    instance of a statement about [clean_html] is wanted. *)
Definition constant_parse (_ _ : string) : BeautifulSoup := link.
Definition count_top (soup : BeautifulSoup) : string :=
  match root_contents soup with [] => "" | _ :: _ => "*" end.

(** A terminal session in a directory that holds the file [in.html] and
    the file [old.html], and the same with the page piped in; nothing
    fails in either.  Then the same session with an encoder that refuses
    every text. *)
Definition at_terminal : World :=
  {| stdin_isatty := true;
     stdin_read := "";
     isfile := fun p => String.eqb p "in.html" || String.eqb p "old.html";
     isdir := fun _ => false;
     path_exists := fun p => String.eqb p "in.html" || String.eqb p "old.html";
     read_text := fun p => if String.eqb p "in.html" then Some "<a>" else None;
     writable := fun _ => true;
     cleans := fun _ _ => true;
     prints := fun _ => true;
     writes := fun _ _ => true |}.

Definition piped : World :=
  {| stdin_isatty := false;
     stdin_read := "<a>";
     isfile := isfile at_terminal;
     isdir := isdir at_terminal;
     path_exists := path_exists at_terminal;
     read_text := read_text at_terminal;
     writable := writable at_terminal;
     cleans := cleans at_terminal;
     prints := prints at_terminal;
     writes := writes at_terminal |}.

Definition unencodable : World :=
  {| stdin_isatty := true;
     stdin_read := "";
     isfile := isfile at_terminal;
     isdir := isdir at_terminal;
     path_exists := path_exists at_terminal;
     read_text := read_text at_terminal;
     writable := fun _ => true;
     cleans := fun _ _ => true;
     prints := fun _ => false;
     writes := fun _ _ => false |}.

(** [<p><!-- note -->t</p>] and [<pre>a<!----></pre>] *)
Definition noted : BeautifulSoup :=
  Soup [elem "p" [] [comment " note "; text "t"]].


(** [<div><img src="i.png"/><p> </p><b>x</b></div>] *)
Definition gallery : list node :=
  [elem "div" []
        [elem "img" [("src", AttrStr "i.png")] [];
         elem "p" [] [text " "];
         elem "b" [] [text "x"]]].

(** * Properties *)

(** ** Strings *)

Lemma lstrip_nil_iff (s : pystr) :
  lstrip s = [] <-> forallb py_isspace s = true.
Proof.
  induction s as [|c r IH]; simpl.
  - tauto.
  - destruct (py_isspace c); simpl.
    + exact IH.
    + split; discriminate.
Qed.

Lemma forallb_rev (A : Type) (f : A -> bool) (l : list A) :
  forallb f (rev l) = forallb f l.
Proof.
  induction l as [|a l IH]; simpl; [reflexivity|].
  rewrite forallb_app, IH. simpl. rewrite andb_true_r. apply andb_comm.
Qed.

Lemma lstrip_suffix (s : pystr) :
  exists pre, s = pre ++ lstrip s /\ forallb py_isspace pre = true.
Proof.
  induction s as [|c r [pre [E H]]]; simpl.
  - exists []. split; reflexivity.
  - destruct (py_isspace c) eqn:Hc.
    + exists (c :: pre). simpl. rewrite Hc, H. split; [f_equal; exact E|reflexivity].
    + exists []. split; reflexivity.
Qed.

(** [not c.strip()] holds exactly of the strings made of whitespace only. *)
Lemma strip_falsy_iff (s : pystr) :
  truthy (strip s) = false <-> forallb py_isspace s = true.
Proof.
  unfold strip, rstrip.
  assert (Hnil : forall l : pystr, truthy l = false <-> l = []).
  { intros [|? ?]; simpl; split; congruence. }
  rewrite Hnil. split.
  - intros H.
    assert (H1 : lstrip (rev (lstrip s)) = []).
    { destruct (lstrip (rev (lstrip s))); [reflexivity|].
      simpl in H. apply app_eq_nil in H. destruct H; discriminate. }
    apply lstrip_nil_iff in H1. rewrite forallb_rev in H1.
    destruct (lstrip_suffix s) as [pre [E Hpre]].
    rewrite E, forallb_app, Hpre, H1. reflexivity.
  - intros H. apply lstrip_nil_iff in H. rewrite H. reflexivity.
Qed.

Lemma mem_In (k : string) (l : list string) : mem k l = true <-> In k l.
Proof.
  unfold mem. rewrite existsb_exists. split.
  - intros [x [Hx E]]. apply String.eqb_eq in E. subst. exact Hx.
  - intros H. exists k. split; [exact H|apply String.eqb_refl].
Qed.

(** ** Positions *)

Lemma nth_error_cut (A : Type) (l : list A) (i : nat) (a : A) :
  nth_error l i = Some a -> l = firstn i l ++ a :: skipn (S i) l.
Proof.
  revert i. induction l as [|x l IH]; intros [|i] H; simpl in *; try discriminate.
  - congruence.
  - f_equal. apply IH. exact H.
Qed.

Lemma forest_size_app (s1 s2 : list node) :
  forest_size (s1 ++ s2) = forest_size s1 + forest_size s2.
Proof. unfold forest_size. rewrite map_app, list_sum_app. reflexivity. Qed.

Lemma forest_size_cons (n : node) (s : list node) :
  forest_size (n :: s) = node_size n + forest_size s.
Proof. reflexivity. Qed.

Lemma node_size_tag (n : node) :
  is_tag n = true -> node_size n = S (forest_size (node_contents n)).
Proof. destruct n; simpl; [reflexivity|discriminate]. Qed.

Lemma get_cons (s : list node) (i : nat) (q : path) :
  get s (i :: q) =
  match nth_error s i with
  | None => None
  | Some n => match q with [] => Some n | _ :: _ => get (node_contents n) q end
  end.
Proof. reflexivity. Qed.

Lemma replace_at_cons (f : node -> list node) (s : list node) (i : nat)
  (q : path) :
  replace_at f s (i :: q) =
  match nth_error s i with
  | None => s
  | Some n =>
      match q with
      | [] => firstn i s ++ f n ++ skipn (S i) s
      | _ :: _ =>
          firstn i s
          ++ set_contents n (replace_at f (node_contents n) q)
          :: skipn (S i) s
      end
  end.
Proof. reflexivity. Qed.

Lemma get_is_tag_parent (s : list node) (i j : nat) (q : path) (n c : node) :
  nth_error s i = Some n -> get (node_contents n) (j :: q) = Some c ->
  is_tag n = true.
Proof.
  intros _ H. destruct n; [reflexivity|].
  simpl in H. destruct j; discriminate.
Qed.

Lemma forest_size_cut (s : list node) (i : nat) (m : node) :
  nth_error s i = Some m ->
  forest_size s
  = forest_size (firstn i s) + node_size m + forest_size (skipn (S i) s).
Proof.
  intros H. rewrite (nth_error_cut _ _ _ _ H) at 1.
  rewrite forest_size_app, forest_size_cons. lia.
Qed.

(** The accounting of one replacement: the node at [p] leaves, the nodes
    [f] makes of it come in. *)
Lemma replace_at_size (f : node -> list node) (p : path) :
  forall (s : list node) (n : node),
    get s p = Some n ->
    forest_size (replace_at f s p) + node_size n
    = forest_size s + forest_size (f n).
Proof.
  induction p as [|i q IH]; intros s n H; [discriminate|].
  rewrite get_cons in H. rewrite replace_at_cons.
  destruct (nth_error s i) as [m|] eqn:Hi; [|discriminate].
  rewrite (forest_size_cut _ _ _ Hi).
  destruct q as [|j q'].
  - inversion H; subst m. rewrite !forest_size_app. lia.
  - specialize (IH _ _ H).
    assert (Hm : is_tag m = true) by (eapply get_is_tag_parent; eauto).
    rewrite !forest_size_app, !forest_size_cons.
    destruct m as [nm pf at_ cs|]; [|discriminate].
    cbn [set_contents node_contents node_size] in *.
    fold (forest_size cs).
    fold (forest_size (replace_at f cs (j :: q'))). lia.
Qed.

(** [find_all(True)] lists exactly the positions of the tags. *)
Lemma tags_from_In (f : node -> list path) (s : list node) (i0 : nat) (p : path) :
  In p (tags_from f i0 s) <->
  exists i q n, p = (i0 + i) :: q /\ nth_error s i = Some n /\ In q (f n).
Proof.
  revert i0. induction s as [|n r IH]; intros i0; simpl.
  - split; [tauto|]. intros [i [q [m [_ [H _]]]]]. destruct i; discriminate.
  - rewrite in_app_iff, in_map_iff, IH. split.
    + intros [[q [E Hq]]|[i [q [m [E [Hn Hq]]]]]].
      * exists 0, q, n. rewrite Nat.add_0_r. auto.
      * exists (S i), q, m. rewrite E. split; [f_equal; lia|auto].
    + intros [[|i] [q [m [E [Hn Hq]]]]]; simpl in Hn.
      * inversion Hn; subst m. left. exists q. rewrite E, Nat.add_0_r. auto.
      * right. exists i, q, m. rewrite E. split; [f_equal; lia|auto].
Qed.

Lemma tag_paths_spec (n : node) :
  forall q, In q (tag_paths n) <->
            (q = [] /\ is_tag n = true)
            \/ (exists c, q <> [] /\ get (node_contents n) q = Some c
                          /\ is_tag c = true).
Proof.
  induction n as [nm pf at_ cs IH|k s] using node_ind; intros q; simpl.
  - rewrite tags_from_In. split.
    + intros [E|[i [q' [c [E [Hi Hq]]]]]]; [left; auto|]. right.
      rewrite Forall_forall in IH.
      apply (IH c (nth_error_In _ _ Hi)) in Hq. simpl in E. subst q.
      destruct Hq as [[E Hc]|[d [Hne [Hd Ht]]]].
      * subst q'. exists c. rewrite get_cons, Hi. repeat split; [discriminate|auto].
      * exists d. rewrite get_cons, Hi. destruct q'; [congruence|].
        repeat split; [discriminate|auto|auto].
    + intros [[E _]|[c [Hne [Hc Ht]]]]; [left; auto|]. right.
      destruct q as [|i q']; [congruence|].
      rewrite get_cons in Hc.
      destruct (nth_error cs i) as [m|] eqn:Hi; [|discriminate].
      exists i, q', m. repeat split; auto.
      rewrite Forall_forall in IH. apply (IH m (nth_error_In _ _ Hi)).
      destruct q'; [left; split; congruence|right].
      exists c. repeat split; [discriminate|auto|auto].
  - split; [tauto|]. intros [[_ H]|[c [Hne [H _]]]]; [discriminate|].
    destruct q as [|i q]; [congruence|]. simpl in H. destruct i; discriminate.
Qed.

Lemma find_all_True_spec (s : list node) (p : path) :
  In p (find_all_True s) <-> exists n, get s p = Some n /\ is_tag n = true.
Proof.
  unfold find_all_True. rewrite tags_from_In. split.
  - intros [i [q [n [E [Hi Hq]]]]]. simpl in E. subst p.
    apply tag_paths_spec in Hq. rewrite get_cons, Hi.
    destruct Hq as [[E Ht]|[c [Hne [Hc Ht]]]].
    + subst q. eauto.
    + destruct q; [congruence|]. eauto.
  - intros [n [H Ht]]. destruct p as [|i q]; [discriminate|].
    rewrite get_cons in H.
    destruct (nth_error s i) as [m|] eqn:Hi; [|discriminate].
    exists i, q, m. repeat split; auto. apply tag_paths_spec.
    destruct q; [left; split; congruence|right].
    exists n. repeat split; [discriminate|auto|auto].
Qed.

(** What a scan finds, and what it means that it finds nothing. *)
Lemma scan_Some (t : node -> bool) (s : list node) (p : path) :
  scan t s = Some p ->
  exists n, get s p = Some n /\ is_tag n = true /\ t n = true.
Proof.
  unfold scan. intros H. apply find_some in H. destruct H as [Hin Ht].
  apply find_all_True_spec in Hin. destruct Hin as [n [Hg Hn]].
  unfold holds_at in Ht. rewrite Hg in Ht. eauto.
Qed.

Lemma scan_None (t : node -> bool) (s : list node) :
  scan t s = None <->
  forall p n, get s p = Some n -> is_tag n = true -> t n = false.
Proof.
  unfold scan. split.
  - intros H p n Hg Hn.
    pose proof (find_none _ _ H p) as Hp. unfold holds_at in Hp.
    rewrite Hg in Hp. apply Hp. apply find_all_True_spec. eauto.
  - intros H. destruct (find (holds_at t s) (find_all_True s)) as [p|] eqn:E;
      [|reflexivity].
    apply find_some in E. destruct E as [Hin Ht].
    apply find_all_True_spec in Hin. destruct Hin as [n [Hg Hn]].
    unfold holds_at in Ht. rewrite Hg in Ht. rewrite (H _ _ Hg Hn) in Ht.
    discriminate.
Qed.

(** ** One mutation *)

Lemma unwrap_size (s : list node) (p : path) (n : node) :
  get s p = Some n -> is_tag n = true ->
  S (forest_size (unwrap s p)) = forest_size s.
Proof.
  intros Hg Ht. pose proof (replace_at_size node_contents _ _ _ Hg) as H.
  fold (unwrap s p) in H. rewrite (node_size_tag _ Ht) in H. lia.
Qed.

Lemma decompose_size (s : list node) (p : path) (n : node) :
  get s p = Some n ->
  forest_size (decompose s p) + node_size n = forest_size s.
Proof.
  intros Hg. pose proof (replace_at_size (fun _ => []) _ _ _ Hg) as H.
  fold (decompose s p) in H. cbn in H. lia.
Qed.

Lemma node_size_pos (n : node) : 0 < node_size n.
Proof. destruct n; simpl; lia. Qed.

(** ** The loops *)

Lemma minimize_loop_spec (b : bool) (rounds : nat) :
  forall s, forest_size s < rounds ->
    scan (is_wrapper b) (fst (minimize_loop rounds b s)) = None
    /\ forest_size (fst (minimize_loop rounds b s))
       + snd (minimize_loop rounds b s) = forest_size s.
Proof.
  induction rounds as [|r IH]; intros s Hlt; [lia|].
  simpl. destruct (scan (is_wrapper b) s) as [p|] eqn:Hscan.
  - destruct (scan_Some _ _ _ Hscan) as [n [Hg [Ht _]]].
    pose proof (unwrap_size _ _ _ Hg Ht) as Hsz.
    destruct (IH (unwrap s p)) as [H1 H2]; [lia|].
    destruct (minimize_loop r b (unwrap s p)) as [s' k]. simpl in *.
    split; [exact H1|lia].
  - simpl. split; [exact Hscan|lia].
Qed.

Lemma remove_empty_loop_spec (rounds : nat) :
  forall s, forest_size s < rounds ->
    scan is_empty (fst (remove_empty_loop rounds s)) = None
    /\ forest_size (fst (remove_empty_loop rounds s))
       + snd (remove_empty_loop rounds s) <= forest_size s.
Proof.
  induction rounds as [|r IH]; intros s Hlt; [lia|].
  simpl. destruct (scan is_empty s) as [p|] eqn:Hscan.
  - destruct (scan_Some _ _ _ Hscan) as [n [Hg _]].
    pose proof (decompose_size _ _ _ Hg) as Hsz.
    pose proof (node_size_pos n) as Hpos.
    destruct (IH (decompose s p)) as [H1 H2]; [lia|].
    destruct (remove_empty_loop r (decompose s p)) as [s' k]. simpl in *.
    split; [exact H1|lia].
  - simpl. split; [exact Hscan|lia].
Qed.

(** More rounds than the tree has nodes change nothing: the loop has left
    by its own test before they are used. *)
Lemma minimize_loop_rounds (b : bool) (r1 : nat) :
  forall r2 s, forest_size s < r1 -> forest_size s < r2 ->
    minimize_loop r1 b s = minimize_loop r2 b s.
Proof.
  induction r1 as [|r1 IH]; intros [|r2] s H1 H2; try lia.
  simpl. destruct (scan (is_wrapper b) s) as [p|] eqn:Hscan; [|reflexivity].
  destruct (scan_Some _ _ _ Hscan) as [n [Hg [Ht _]]].
  pose proof (unwrap_size _ _ _ Hg Ht) as Hsz.
  rewrite (IH r2 (unwrap s p)) by lia. reflexivity.
Qed.

Lemma remove_empty_loop_rounds (r1 : nat) :
  forall r2 s, forest_size s < r1 -> forest_size s < r2 ->
    remove_empty_loop r1 s = remove_empty_loop r2 s.
Proof.
  induction r1 as [|r1 IH]; intros [|r2] s H1 H2; try lia.
  simpl. destruct (scan is_empty s) as [p|] eqn:Hscan; [|reflexivity].
  destruct (scan_Some _ _ _ Hscan) as [n [Hg _]].
  pose proof (decompose_size _ _ _ Hg) as Hsz.
  pose proof (node_size_pos n) as Hpos.
  rewrite (IH r2 (decompose s p)) by lia. reflexivity.
Qed.

Lemma minimize_loop_exit (b : bool) (s : list node) :
  scan (is_wrapper b)
       (root_contents (minimize_nesting b (Soup s))) = None.
Proof. apply minimize_loop_spec. simpl. lia. Qed.

Lemma remove_empty_loop_exit (s : list node) :
  scan is_empty (root_contents (remove_empty_tags (Soup s))) = None.
Proof. apply remove_empty_loop_spec. simpl. lia. Qed.

(** A tree the scan finds nothing in is returned as it is. *)
Lemma minimize_nesting_fixed (b : bool) (s : list node) :
  scan (is_wrapper b) s = None -> minimize_nesting b (Soup s) = Soup s.
Proof. intros H. unfold minimize_nesting. simpl. rewrite H. reflexivity. Qed.

Lemma remove_empty_tags_fixed (s : list node) :
  scan is_empty s = None -> remove_empty_tags (Soup s) = Soup s.
Proof. intros H. unfold remove_empty_tags. simpl. rewrite H. reflexivity. Qed.

(** ** Tests over all nodes *)

Lemma all_nodes_unfold (t : node -> bool) (n : node) :
  all_nodes t n = t n && all_forest t (node_contents n).
Proof. destruct n; reflexivity. Qed.

Lemma all_forest_app (t : node -> bool) (s1 s2 : list node) :
  all_forest t (s1 ++ s2) = all_forest t s1 && all_forest t s2.
Proof. apply forallb_app. Qed.

Lemma all_forest_cons (t : node -> bool) (n : node) (s : list node) :
  all_forest t (n :: s) = all_nodes t n && all_forest t s.
Proof. reflexivity. Qed.

Lemma all_forest_one (t : node -> bool) (n : node) :
  all_forest t [n] = all_nodes t n.
Proof. unfold all_forest. simpl. apply andb_true_r. Qed.

Lemma all_forest_get (t : node -> bool) (s : list node) :
  all_forest t s = true <-> forall p n, get s p = Some n -> t n = true.
Proof.
  split.
  - intros H p. revert s H.
    induction p as [|i q IH]; intros s H n Hg; [discriminate|].
    rewrite get_cons in Hg.
    destruct (nth_error s i) as [m|] eqn:Hi; [|discriminate].
    unfold all_forest in H. rewrite forallb_forall in H.
    pose proof (H m (nth_error_In _ _ Hi)) as Hm.
    rewrite all_nodes_unfold in Hm. apply andb_prop in Hm.
    destruct Hm as [Hm Hcs].
    destruct q; [congruence|]. exact (IH _ Hcs _ Hg).
  - assert (Hnode : forall n,
               t n = true ->
               (forall q c, get (node_contents n) q = Some c -> t c = true) ->
               all_nodes t n = true).
    { induction n as [nm pf at_ cs IH|k x] using node_ind; intros Hn Hd;
        rewrite all_nodes_unfold, Hn; simpl; [|reflexivity].
      unfold all_forest. apply forallb_forall. intros c Hc.
      rewrite Forall_forall in IH.
      destruct (In_nth_error _ _ Hc) as [j Hj].
      apply (IH c Hc).
      - apply (Hd [j]). simpl. rewrite Hj. reflexivity.
      - intros q d Hq. apply (Hd (j :: q)). simpl. rewrite Hj.
        destruct q; [discriminate|exact Hq]. }
    intros H. unfold all_forest. apply forallb_forall. intros m Hm.
    destruct (In_nth_error _ _ Hm) as [i Hi]. apply Hnode.
    + apply (H [i]). simpl. rewrite Hi. reflexivity.
    + intros q d Hq. apply (H (i :: q)). simpl. rewrite Hi.
      destruct q; [discriminate|exact Hq].
Qed.

Lemma scan_None_no_tag (t : node -> bool) (s : list node) :
  scan t s = None <-> no_tag t s = true.
Proof.
  unfold no_tag. rewrite scan_None, all_forest_get. split.
  - intros H p n Hg. destruct (is_tag n) eqn:Ht; [|reflexivity].
    rewrite (H _ _ Hg Ht). reflexivity.
  - intros H p n Hg Ht. specialize (H _ _ Hg). rewrite Ht in H.
    simpl in H. destruct (t n); [discriminate|reflexivity].
Qed.

(** ** The shape of a child sequence *)

Lemma shape_app (b : bool) (s1 s2 : list node) :
  shape b (s1 ++ s2) = shape b s1 ++ shape b s2.
Proof. unfold shape. rewrite filter_app, map_app. reflexivity. Qed.

Lemma shape_tag (b : bool) (nm : string) (pf : option string) (at_ : attrs_t)
  (cs : list node) :
  shape b [Tag nm pf at_ cs] = [child_key b (Tag nm pf at_ cs)].
Proof. reflexivity. Qed.

Lemma shape_flat_map (b : bool) (f : node -> list node) (s : list node) :
  Forall (fun c => shape b (f c) = shape b [c]) s ->
  shape b (flat_map f s) = shape b s.
Proof.
  induction 1 as [|c r Hc _ IH]; [reflexivity|].
  simpl flat_map. rewrite shape_app, Hc, IH.
  change (c :: r) with ([c] ++ r). rewrite shape_app. reflexivity.
Qed.

(** Both tests look at the children of a tag through their shape only. *)
Lemma is_wrapper_shape (b : bool) (nm : string) (pf : option string)
  (at_ : attrs_t) (cs : list node) :
  is_wrapper b (Tag nm pf at_ cs) =
  match shape b cs, at_ with
  | [Some child_name], [] =>
      negb b || String.eqb child_name nm
  | _, _ => false
  end.
Proof.
  unfold is_wrapper, shape, _significant_children. simpl node_contents.
  destruct (filter (fun c => negb (insignificant c)) cs) as [|c [|d r]];
    simpl; try reflexivity.
  - destruct c; simpl; [|reflexivity].
    destruct at_; [|reflexivity]. destruct b; simpl; [|reflexivity].
    rewrite negb_involutive. reflexivity.
  - destruct c; simpl; reflexivity.
Qed.

Lemma is_empty_shape (b : bool) (n : node) :
  is_empty n = match shape b (node_contents n) with [] => true | _ => false end.
Proof.
  unfold is_empty, shape, _significant_children.
  destruct (filter (fun c => negb (insignificant c)) (node_contents n));
    reflexivity.
Qed.

(** A wrapper and its contents have the same shape. *)
Lemma wrapper_shape (b : bool) (n : node) :
  is_wrapper b n = true -> shape b (node_contents n) = shape b [n].
Proof.
  destruct n as [nm pf at_ cs|k x]; [|discriminate].
  rewrite shape_tag. unfold is_wrapper, shape, _significant_children.
  simpl node_contents.
  destruct (filter (fun c => negb (insignificant c)) cs) as [|c [|d r]];
    try discriminate.
  - destruct c as [cn cpf cat ccs|]; [|discriminate].
    destruct at_; [|discriminate]. simpl.
    destruct b; simpl; intros H; [|reflexivity].
    rewrite negb_involutive in H. apply String.eqb_eq in H. subst. reflexivity.
  - destruct c; discriminate.
Qed.

(** ** [minimize_nesting] in one pass *)

Lemma flat_map_id (f : node -> list node) (s : list node) :
  Forall (fun c => f c = [c]) s -> flat_map f s = s.
Proof.
  induction 1 as [|c r Hc _ IH]; [reflexivity|].
  simpl. rewrite Hc, IH. reflexivity.
Qed.

Lemma collapse_app (b : bool) (s1 s2 : list node) :
  collapse b (s1 ++ s2) = collapse b s1 ++ collapse b s2.
Proof. apply flat_map_app. Qed.

Lemma collapse_node_tag (b : bool) (nm : string) (pf : option string)
  (at_ : attrs_t) (cs : list node) :
  collapse_node b (Tag nm pf at_ cs) =
  if is_wrapper b (Tag nm pf at_ (collapse b cs)) then collapse b cs
  else [Tag nm pf at_ (collapse b cs)].
Proof. reflexivity. Qed.

Lemma collapse_cons (b : bool) (n : node) (s : list node) :
  collapse b (n :: s) = collapse_node b n ++ collapse b s.
Proof. reflexivity. Qed.

Lemma collapse_node_shape (b : bool) (n : node) :
  shape b (collapse_node b n) = shape b [n].
Proof.
  induction n as [nm pf at_ cs IH|k x] using node_ind; [|reflexivity].
  rewrite collapse_node_tag.
  destruct (is_wrapper b (Tag nm pf at_ (collapse b cs))) eqn:Hw.
  - apply wrapper_shape in Hw. simpl node_contents in Hw.
    rewrite Hw, !shape_tag. reflexivity.
  - rewrite !shape_tag. reflexivity.
Qed.

Lemma collapse_shape (b : bool) (s : list node) :
  shape b (collapse b s) = shape b s.
Proof.
  apply shape_flat_map. apply Forall_forall. intros c _.
  apply collapse_node_shape.
Qed.

Lemma is_wrapper_collapse (b : bool) (nm : string) (pf : option string)
  (at_ : attrs_t) (cs : list node) :
  is_wrapper b (Tag nm pf at_ (collapse b cs))
  = is_wrapper b (Tag nm pf at_ cs).
Proof. rewrite !is_wrapper_shape, collapse_shape. reflexivity. Qed.

(** Unwrapping a wrapper, wherever it stands, does not change what the
    tree collapses to. *)
Lemma collapse_unwrap (b : bool) (p : path) :
  forall (s : list node) (n : node),
    get s p = Some n -> is_wrapper b n = true ->
    collapse b (unwrap s p) = collapse b s.
Proof.
  unfold unwrap.
  induction p as [|i q IH]; intros s n Hg Hw; [discriminate|].
  rewrite get_cons in Hg. rewrite replace_at_cons.
  destruct (nth_error s i) as [m|] eqn:Hi; [|discriminate].
  pose proof (nth_error_cut _ _ _ _ Hi) as Hs.
  remember (firstn i s) as pre eqn:Hpre.
  remember (skipn (S i) s) as post eqn:Hpost.
  rewrite Hs. clear Hs Hpre Hpost.
  destruct q as [|j q'].
  - inversion Hg; subst m.
    rewrite !collapse_app, collapse_cons. f_equal. f_equal.
    destruct n as [nm pf at_ cs|]; [|discriminate].
    rewrite collapse_node_tag, is_wrapper_collapse, Hw. reflexivity.
  - assert (Hm : is_tag m = true) by (eapply get_is_tag_parent; eauto).
    destruct m as [nm pf at_ cs|]; [|discriminate].
    cbn [set_contents node_contents] in *.
    rewrite !collapse_app, !collapse_cons, !collapse_node_tag.
    rewrite (IH _ _ Hg Hw). reflexivity.
Qed.

Lemma collapse_node_fixed (b : bool) (n : node) :
  all_nodes (fun m => negb (is_tag m && is_wrapper b m)) n = true ->
  collapse_node b n = [n].
Proof.
  induction n as [nm pf at_ cs IH|k x] using node_ind; [|reflexivity].
  rewrite all_nodes_unfold. intros H. apply andb_prop in H.
  destruct H as [Hn Hcs]. cbn [is_tag node_contents andb] in Hn, Hcs.
  rewrite collapse_node_tag.
  assert (Hid : collapse b cs = cs).
  { apply flat_map_id. rewrite Forall_forall in *. intros c Hc.
    apply (IH c Hc). unfold all_forest in Hcs.
    rewrite forallb_forall in Hcs. exact (Hcs c Hc). }
  rewrite Hid. apply negb_true_iff in Hn. rewrite Hn. reflexivity.
Qed.

Lemma collapse_fixed (b : bool) (s : list node) :
  scan (is_wrapper b) s = None -> collapse b s = s.
Proof.
  rewrite scan_None_no_tag. unfold no_tag, all_forest. intros H.
  apply flat_map_id. apply Forall_forall. intros c Hc.
  apply collapse_node_fixed. rewrite forallb_forall in H. exact (H c Hc).
Qed.

Lemma minimize_loop_collapse (b : bool) (rounds : nat) :
  forall s, forest_size s < rounds ->
            fst (minimize_loop rounds b s) = collapse b s.
Proof.
  induction rounds as [|r IH]; intros s Hlt; [lia|].
  simpl. destruct (scan (is_wrapper b) s) as [p|] eqn:Hscan.
  - destruct (scan_Some _ _ _ Hscan) as [n [Hg [Ht Hw]]].
    pose proof (unwrap_size _ _ _ Hg Ht) as Hsz.
    specialize (IH (unwrap s p)).
    destruct (minimize_loop r b (unwrap s p)) as [s' k]. simpl in *.
    rewrite IH by lia. exact (collapse_unwrap _ _ _ _ Hg Hw).
  - simpl. symmetry. apply collapse_fixed. exact Hscan.
Qed.

Lemma minimize_nesting_collapse (b : bool) (s : list node) :
  minimize_nesting b (Soup s) = Soup (collapse b s).
Proof.
  unfold minimize_nesting. f_equal. simpl root_contents.
  apply minimize_loop_collapse. lia.
Qed.

(** ** [remove_empty_tags] in one pass *)

Lemma prune_app (s1 s2 : list node) : prune (s1 ++ s2) = prune s1 ++ prune s2.
Proof. apply flat_map_app. Qed.

Lemma prune_node_tag (nm : string) (pf : option string) (at_ : attrs_t)
  (cs : list node) :
  prune_node (Tag nm pf at_ cs) =
  if is_empty (Tag nm pf at_ (prune cs)) then []
  else [Tag nm pf at_ (prune cs)].
Proof. reflexivity. Qed.

Lemma prune_cons (n : node) (s : list node) :
  prune (n :: s) = prune_node n ++ prune s.
Proof. reflexivity. Qed.

Lemma prune_insignificant (cs : list node) :
  filter (fun c => negb (insignificant c)) cs = [] -> prune cs = cs.
Proof.
  induction cs as [|c r IH]; [reflexivity|]. simpl filter.
  destruct c as [nm pf at_ ccs|k x]; simpl; [discriminate|].
  destruct (negb (negb (truthy (strip x)))); [discriminate|].
  intros H. unfold prune in *. simpl. rewrite (IH H). reflexivity.
Qed.

Lemma prune_decompose (p : path) :
  forall (s : list node) (n : node),
    get s p = Some n -> is_tag n = true -> is_empty n = true ->
    prune (decompose s p) = prune s.
Proof.
  unfold decompose.
  induction p as [|i q IH]; intros s n Hg Ht He; [discriminate|].
  rewrite get_cons in Hg. rewrite replace_at_cons.
  destruct (nth_error s i) as [m|] eqn:Hi; [|discriminate].
  pose proof (nth_error_cut _ _ _ _ Hi) as Hs.
  remember (firstn i s) as pre eqn:Hpre.
  remember (skipn (S i) s) as post eqn:Hpost.
  rewrite Hs. clear Hs Hpre Hpost.
  destruct q as [|j q'].
  - inversion Hg; subst m. simpl app.
    rewrite !prune_app, prune_cons. f_equal.
    destruct n as [nm pf at_ cs|]; [|discriminate].
    rewrite prune_node_tag.
    assert (Hid : prune cs = cs).
    { apply prune_insignificant. unfold is_empty, _significant_children in He.
      simpl node_contents in He.
      destruct (filter (fun c => negb (insignificant c)) cs);
        [reflexivity|discriminate]. }
    rewrite Hid, He. reflexivity.
  - assert (Hm : is_tag m = true) by (eapply get_is_tag_parent; eauto).
    destruct m as [nm pf at_ cs|]; [|discriminate].
    cbn [set_contents node_contents] in *.
    rewrite !prune_app, !prune_cons, !prune_node_tag.
    rewrite (IH _ _ Hg Ht He). reflexivity.
Qed.

Lemma prune_node_fixed (n : node) :
  all_nodes (fun m => negb (is_tag m && is_empty m)) n = true ->
  prune_node n = [n].
Proof.
  induction n as [nm pf at_ cs IH|k x] using node_ind; [|reflexivity].
  rewrite all_nodes_unfold. intros H. apply andb_prop in H.
  destruct H as [Hn Hcs]. cbn [is_tag node_contents andb] in Hn, Hcs.
  rewrite prune_node_tag.
  assert (Hid : prune cs = cs).
  { apply flat_map_id. rewrite Forall_forall in *. intros c Hc.
    apply (IH c Hc). unfold all_forest in Hcs.
    rewrite forallb_forall in Hcs. exact (Hcs c Hc). }
  rewrite Hid. apply negb_true_iff in Hn. rewrite Hn. reflexivity.
Qed.

Lemma prune_fixed (s : list node) : scan is_empty s = None -> prune s = s.
Proof.
  rewrite scan_None_no_tag. unfold no_tag, all_forest. intros H.
  apply flat_map_id. apply Forall_forall. intros c Hc.
  apply prune_node_fixed. rewrite forallb_forall in H. exact (H c Hc).
Qed.

Lemma remove_empty_loop_prune (rounds : nat) :
  forall s, forest_size s < rounds ->
            fst (remove_empty_loop rounds s) = prune s.
Proof.
  induction rounds as [|r IH]; intros s Hlt; [lia|].
  simpl. destruct (scan is_empty s) as [p|] eqn:Hscan.
  - destruct (scan_Some _ _ _ Hscan) as [n [Hg [Ht He]]].
    pose proof (decompose_size _ _ _ Hg) as Hsz.
    pose proof (node_size_pos n) as Hpos.
    specialize (IH (decompose s p)).
    destruct (remove_empty_loop r (decompose s p)) as [s' k]. simpl in *.
    rewrite IH by lia. exact (prune_decompose _ _ _ Hg Ht He).
  - simpl. symmetry. apply prune_fixed. exact Hscan.
Qed.

Lemma remove_empty_tags_prune (s : list node) :
  remove_empty_tags (Soup s) = Soup (prune s).
Proof.
  unfold remove_empty_tags. f_equal. simpl root_contents.
  apply remove_empty_loop_prune. lia.
Qed.

(** ** What the passes preserve *)

Lemma shallow_by_shape (b : bool) (t : node -> bool) :
  shallow t -> by_shape b t.
Proof. intros H n cs _. apply H. Qed.

Lemma by_name_shallow (t : node -> bool) : by_name t -> shallow t.
Proof. intros H [nm pf at_ cs|k x] cs'; simpl; [apply H|reflexivity]. Qed.

Lemma all_forest_flat_map (t : node -> bool) (f : node -> list node)
  (s : list node) :
  Forall (fun c => all_nodes t c = true -> all_forest t (f c) = true) s ->
  all_forest t s = true -> all_forest t (flat_map f s) = true.
Proof.
  induction 1 as [|c r Hc _ IH]; intros H; [reflexivity|].
  rewrite all_forest_cons in H. apply andb_prop in H. destruct H as [H1 H2].
  simpl flat_map. rewrite all_forest_app, (Hc H1), (IH H2). reflexivity.
Qed.

Lemma all_forest_collapse (b : bool) (t : node -> bool) (s : list node) :
  by_shape b t ->
  all_forest t s = true -> all_forest t (collapse b s) = true.
Proof.
  intros Ht.
  assert (Hnode : forall n, all_nodes t n = true ->
                            all_forest t (collapse_node b n) = true).
  { induction n as [nm pf at_ cs IH|k x] using node_ind.
    - rewrite all_nodes_unfold. intros H. apply andb_prop in H.
      destruct H as [Hn Hcs]. simpl node_contents in Hcs.
      pose proof (all_forest_flat_map t (collapse_node b) cs IH Hcs) as Hcs'.
      fold (collapse b cs) in Hcs'. rewrite collapse_node_tag.
      destruct (is_wrapper b (Tag nm pf at_ (collapse b cs))); [exact Hcs'|].
      rewrite all_forest_cons, all_nodes_unfold. simpl node_contents.
      rewrite Hcs'.
      change (Tag nm pf at_ (collapse b cs))
        with (set_contents (Tag nm pf at_ cs) (collapse b cs)).
      rewrite Ht by apply collapse_shape. rewrite Hn. reflexivity.
    - intros H. simpl collapse_node. rewrite all_forest_one. exact H. }
  apply all_forest_flat_map. apply Forall_forall. intros c _. apply Hnode.
Qed.

Lemma all_forest_prune (t : node -> bool) (s : list node) :
  shallow t -> all_forest t s = true -> all_forest t (prune s) = true.
Proof.
  intros Ht.
  assert (Hnode : forall n, all_nodes t n = true ->
                            all_forest t (prune_node n) = true).
  { induction n as [nm pf at_ cs IH|k x] using node_ind.
    - rewrite all_nodes_unfold. intros H. apply andb_prop in H.
      destruct H as [Hn Hcs]. simpl node_contents in Hcs.
      pose proof (all_forest_flat_map t prune_node cs IH Hcs) as Hcs'.
      fold (prune cs) in Hcs'. rewrite prune_node_tag.
      destruct (is_empty (Tag nm pf at_ (prune cs))); [reflexivity|].
      rewrite all_forest_cons, all_nodes_unfold. simpl node_contents.
      rewrite Hcs'.
      change (Tag nm pf at_ (prune cs))
        with (set_contents (Tag nm pf at_ cs) (prune cs)).
      rewrite Ht, Hn. reflexivity.
    - intros H. simpl prune_node. rewrite all_forest_one. exact H. }
  apply all_forest_flat_map. apply Forall_forall. intros c _. apply Hnode.
Qed.

Lemma remove_node_tag (m : node -> bool) (nm : string) (pf : option string)
  (at_ : attrs_t) (cs : list node) :
  remove_node m (Tag nm pf at_ cs) =
  if m (Tag nm pf at_ cs) then [] else [Tag nm pf at_ (remove_nodes m cs)].
Proof. reflexivity. Qed.

Lemma remove_node_str (m : node -> bool) (k : string_class) (x : pystr) :
  remove_node m (NavigableString k x) =
  if m (NavigableString k x) then [] else [NavigableString k x].
Proof. reflexivity. Qed.

Lemma remove_nodes_cons (m : node -> bool) (n : node) (s : list node) :
  remove_nodes m (n :: s) = remove_node m n ++ remove_nodes m s.
Proof. reflexivity. Qed.

Lemma remove_nodes_app (m : node -> bool) (s1 s2 : list node) :
  remove_nodes m (s1 ++ s2) = remove_nodes m s1 ++ remove_nodes m s2.
Proof. apply flat_map_app. Qed.

Lemma all_forest_remove_nodes (m t : node -> bool) (s : list node) :
  shallow t -> all_forest t s = true -> all_forest t (remove_nodes m s) = true.
Proof.
  intros Ht.
  assert (Hnode : forall n, all_nodes t n = true ->
                            all_forest t (remove_node m n) = true).
  { induction n as [nm pf at_ cs IH|k x] using node_ind.
    - rewrite all_nodes_unfold. intros H. apply andb_prop in H.
      destruct H as [Hn Hcs]. simpl node_contents in Hcs.
      pose proof (all_forest_flat_map t (remove_node m) cs IH Hcs) as Hcs'.
      fold (remove_nodes m cs) in Hcs'. rewrite remove_node_tag.
      destruct (m (Tag nm pf at_ cs)); [reflexivity|].
      rewrite all_forest_cons, all_nodes_unfold. simpl node_contents.
      rewrite Hcs'.
      change (Tag nm pf at_ (remove_nodes m cs))
        with (set_contents (Tag nm pf at_ cs) (remove_nodes m cs)).
      rewrite Ht, Hn. reflexivity.
    - intros H. rewrite remove_node_str.
      destruct (m (NavigableString k x)); [reflexivity|].
      rewrite all_forest_one. exact H. }
  apply all_forest_flat_map. apply Forall_forall. intros c _. apply Hnode.
Qed.

(** After the removal no node passes the test any more. *)
Lemma remove_nodes_none_left (m : node -> bool) (s : list node) :
  shallow m -> all_forest (fun n => negb (m n)) (remove_nodes m s) = true.
Proof.
  intros Hm.
  assert (Hnode : forall n,
             all_forest (fun c => negb (m c)) (remove_node m n) = true).
  { induction n as [nm pf at_ cs IH|k x] using node_ind.
    - rewrite remove_node_tag.
      destruct (m (Tag nm pf at_ cs)) eqn:E; [reflexivity|].
      rewrite all_forest_cons, all_nodes_unfold. simpl node_contents.
      change (Tag nm pf at_ (remove_nodes m cs))
        with (set_contents (Tag nm pf at_ cs) (remove_nodes m cs)).
      rewrite Hm, E. simpl.
      assert (Hcs : all_forest (fun c => negb (m c)) (remove_nodes m cs) = true).
      { clear E. induction IH as [|c r Hc _ IHr]; [reflexivity|].
        rewrite remove_nodes_cons, all_forest_app, Hc, IHr. reflexivity. }
      rewrite Hcs. reflexivity.
    - rewrite remove_node_str.
      destruct (m (NavigableString k x)) eqn:E; [reflexivity|].
      unfold all_forest. simpl. rewrite E. reflexivity. }
  induction s as [|c r IH]; [reflexivity|].
  rewrite remove_nodes_cons, all_forest_app, Hnode, IH. reflexivity.
Qed.

(** Where no node passes the test the removal changes nothing. *)
Lemma remove_nodes_fixed (m : node -> bool) (s : list node) :
  all_forest (fun n => negb (m n)) s = true -> remove_nodes m s = s.
Proof.
  assert (Hnode : forall n, all_nodes (fun c => negb (m c)) n = true ->
                            remove_node m n = [n]).
  { induction n as [nm pf at_ cs IH|k x] using node_ind.
    - rewrite all_nodes_unfold. intros H. apply andb_prop in H.
      destruct H as [Hn Hcs]. simpl node_contents in Hcs.
      apply negb_true_iff in Hn. rewrite remove_node_tag, Hn.
      assert (Hid : remove_nodes m cs = cs).
      { apply flat_map_id. rewrite Forall_forall in *. intros c Hc.
        apply (IH c Hc). unfold all_forest in Hcs.
        rewrite forallb_forall in Hcs. exact (Hcs c Hc). }
      rewrite Hid. reflexivity.
    - rewrite all_nodes_unfold. intros H. apply andb_prop in H.
      destruct H as [Hn _]. apply negb_true_iff in Hn.
      rewrite remove_node_str, Hn. reflexivity. }
  unfold all_forest. intros H. apply flat_map_id. apply Forall_forall.
  intros c Hc. apply Hnode. rewrite forallb_forall in H. exact (H c Hc).
Qed.

Lemma strip_attrs_node_tag (keep : list string) (nm : string)
  (pf : option string) (at_ : attrs_t) (cs : list node) :
  strip_attrs_node keep (Tag nm pf at_ cs)
  = Tag nm pf (keep_only keep at_) (strip_attrs keep cs).
Proof. reflexivity. Qed.

Lemma all_forest_strip_attrs (keep : list string) (t : node -> bool)
  (s : list node) :
  by_name t ->
  all_forest t s = true -> all_forest t (strip_attrs keep s) = true.
Proof.
  intros Ht.
  assert (Hnode : forall n, all_nodes t n = true ->
                            all_nodes t (strip_attrs_node keep n) = true).
  { induction n as [nm pf at_ cs IH|k x] using node_ind; [|auto].
    rewrite strip_attrs_node_tag, !all_nodes_unfold. simpl node_contents.
    intros H. apply andb_prop in H. destruct H as [Hn Hcs].
    rewrite (Ht nm pf _ at_ _ cs), Hn. simpl.
    unfold all_forest, strip_attrs in *. rewrite forallb_forall in *.
    intros c Hc. apply in_map_iff in Hc. destruct Hc as [d [E Hd]].
    subst c. rewrite Forall_forall in IH. apply (IH d Hd). exact (Hcs d Hd). }
  unfold all_forest, strip_attrs. rewrite !forallb_forall.
  intros H c Hc. apply in_map_iff in Hc. destruct Hc as [d [E Hd]].
  subst c. apply Hnode. exact (H d Hd).
Qed.

Lemma keep_only_within (keep : list string) (at_ : attrs_t) :
  forallb (fun kv => mem (fst kv) keep) (keep_only keep at_) = true.
Proof.
  apply forallb_forall. intros kv H. apply filter_In in H. apply H.
Qed.

Lemma keep_only_fixed (keep : list string) (at_ : attrs_t) :
  forallb (fun kv => mem (fst kv) keep) at_ = true -> keep_only keep at_ = at_.
Proof.
  induction at_ as [|kv r IH]; simpl; [reflexivity|].
  intros H. apply andb_prop in H. destruct H as [H1 H2].
  rewrite H1, (IH H2). reflexivity.
Qed.

(** After the Attribute Filter every attribute name is in the keep-set. *)
Lemma strip_attrs_within (keep : list string) (s : list node) :
  all_forest (attrs_within keep) (strip_attrs keep s) = true.
Proof.
  assert (Hnode : forall n,
             all_nodes (attrs_within keep) (strip_attrs_node keep n) = true).
  { induction n as [nm pf at_ cs IH|k x] using node_ind; [|reflexivity].
    rewrite strip_attrs_node_tag, all_nodes_unfold. simpl node_contents.
    unfold attrs_within at 1. simpl node_attrs. rewrite keep_only_within.
    simpl. unfold all_forest, strip_attrs. apply forallb_forall.
    intros c Hc. apply in_map_iff in Hc. destruct Hc as [d [E Hd]].
    subst c. rewrite Forall_forall in IH. exact (IH d Hd). }
  unfold all_forest, strip_attrs. apply forallb_forall.
  intros c Hc. apply in_map_iff in Hc. destruct Hc as [d [E Hd]].
  subst c. apply Hnode.
Qed.

Lemma strip_attrs_fixed (keep : list string) (s : list node) :
  all_forest (attrs_within keep) s = true -> strip_attrs keep s = s.
Proof.
  assert (Hnode : forall n, all_nodes (attrs_within keep) n = true ->
                            strip_attrs_node keep n = n).
  { induction n as [nm pf at_ cs IH|k x] using node_ind; [|reflexivity].
    rewrite all_nodes_unfold. intros H. apply andb_prop in H.
    destruct H as [Hn Hcs]. simpl node_contents in Hcs.
    rewrite strip_attrs_node_tag. unfold attrs_within in Hn.
    simpl node_attrs in Hn. rewrite (keep_only_fixed _ _ Hn). f_equal.
    unfold strip_attrs. rewrite <- (map_id cs) at 2. apply map_ext_in.
    intros c Hc. rewrite Forall_forall in IH. apply (IH c Hc).
    unfold all_forest in Hcs. rewrite forallb_forall in Hcs.
    exact (Hcs c Hc). }
  intros H. unfold strip_attrs. rewrite <- (map_id s) at 2.
  apply map_ext_in. intros c Hc. apply Hnode.
  unfold all_forest in H. rewrite forallb_forall in H. exact (H c Hc).
Qed.

(** ** The Tag Remover as one removal *)

Lemma matches_any_by_name (names : list string) : by_name (matches_any names).
Proof.
  intros nm pf at1 at2 cs1 cs2. unfold matches_any.
  induction names as [|q names IH]; [reflexivity|].
  cbn [existsb]. rewrite IH. reflexivity.
Qed.

Lemma negb_by_name (t : node -> bool) :
  by_name t -> by_name (fun n => negb (t n)).
Proof. intros H nm pf at1 at2 cs1 cs2. f_equal. apply H. Qed.

Lemma found_comment_by_name : by_name (found_string is_comment).
Proof. intros nm pf at1 at2 cs1 cs2. reflexivity. Qed.

Lemma attrs_within_shallow (keep : list string) : shallow (attrs_within keep).
Proof. intros [nm pf at_ cs|k x] cs'; reflexivity. Qed.

Lemma remove_nodes_ext (m1 m2 : node -> bool) (s : list node) :
  (forall n, m1 n = m2 n) -> remove_nodes m1 s = remove_nodes m2 s.
Proof.
  intros H.
  assert (Hnode : forall n, remove_node m1 n = remove_node m2 n).
  { induction n as [nm pf at_ cs IH|k x] using node_ind.
    - rewrite !remove_node_tag, H.
      destruct (m2 (Tag nm pf at_ cs)); [reflexivity|]. do 2 f_equal.
      unfold remove_nodes.
      induction IH as [|c r Hc _ IHr]; [reflexivity|].
      simpl. rewrite Hc, IHr. reflexivity.
    - rewrite !remove_node_str, H. reflexivity. }
  induction s as [|c r IH]; [reflexivity|].
  rewrite !remove_nodes_cons, Hnode, IH. reflexivity.
Qed.

Lemma remove_nodes_twice (m1 m2 : node -> bool) (s : list node) :
  shallow m2 ->
  remove_nodes m2 (remove_nodes m1 s)
  = remove_nodes (fun n => m1 n || m2 n) s.
Proof.
  intros Hm.
  assert (Hnode : forall n,
             remove_nodes m2 (remove_node m1 n)
             = remove_node (fun c => m1 c || m2 c) n).
  { induction n as [nm pf at_ cs IH|k x] using node_ind.
    - rewrite !remove_node_tag.
      destruct (m1 (Tag nm pf at_ cs)) eqn:E1; [reflexivity|].
      rewrite remove_nodes_cons, remove_node_tag. simpl orb.
      change (Tag nm pf at_ (remove_nodes m1 cs))
        with (set_contents (Tag nm pf at_ cs) (remove_nodes m1 cs)).
      rewrite Hm. destruct (m2 (Tag nm pf at_ cs)); [reflexivity|].
      simpl. do 2 f_equal. clear E1.
      induction IH as [|c r Hc _ IHr]; [reflexivity|].
      rewrite !remove_nodes_cons, remove_nodes_app, Hc, IHr. reflexivity.
    - rewrite !remove_node_str.
      destruct (m1 (NavigableString k x)); [reflexivity|].
      rewrite remove_nodes_cons, remove_node_str. simpl.
      destruct (m2 (NavigableString k x)); reflexivity. }
  induction s as [|c r IH]; [reflexivity|].
  rewrite !remove_nodes_cons, remove_nodes_app, Hnode, IH. reflexivity.
Qed.

Lemma remove_tags_any (names : list string) :
  forall s, remove_tags names s = remove_nodes (matches_any names) s.
Proof.
  induction names as [|q names IH]; intros s.
  - symmetry. apply remove_nodes_fixed. apply all_forest_get. reflexivity.
  - unfold remove_tags in *. simpl fold_left. rewrite IH.
    rewrite remove_nodes_twice
      by (apply by_name_shallow, matches_any_by_name).
    reflexivity.
Qed.

(** ** [clean_tree] by its passes *)

Lemma clean_tree_passes (args : Args.t) (s : list node) :
  clean_tree args (Soup s) = Soup (back args (front args s)).
Proof.
  unfold clean_tree, back, front. simpl root_contents.
  rewrite remove_tags_any. unfold remove_comments.
  destruct (Args.remove_comments args), (Args.minimize_nesting args),
    (Args.remove_empty args); simpl root_contents;
    rewrite ?minimize_nesting_collapse, ?remove_empty_tags_prune;
    reflexivity.
Qed.

Lemma front_cleaned (args : Args.t) (s : list node) :
  cleaned args (front args s).
Proof.
  unfold cleaned, front. repeat split.
  - apply all_forest_strip_attrs;
      [apply negb_by_name, matches_any_by_name|].
    pose proof (remove_nodes_none_left
                  (matches_any (Args.remove_tag args)) s
                  (by_name_shallow _ (matches_any_by_name _))) as H.
    destruct (Args.remove_comments args); [|exact H].
    apply all_forest_remove_nodes; [|exact H].
    apply by_name_shallow, negb_by_name, matches_any_by_name.
  - intros E. rewrite E.
    apply all_forest_strip_attrs; [apply negb_by_name, found_comment_by_name|].
    apply remove_nodes_none_left. apply by_name_shallow, found_comment_by_name.
  - apply strip_attrs_within.
Qed.

Lemma back_cleaned (args : Args.t) (s : list node) :
  cleaned args s -> cleaned args (back args s).
Proof.
  assert (Hback : forall t, shallow t -> all_forest t s = true ->
                            all_forest t (back args s) = true).
  { intros t Ht H. unfold back.
    assert (H1 : all_forest t
                   (if Args.minimize_nesting args
                    then collapse (Args.same_name_only args) s else s) = true).
    { destruct (Args.minimize_nesting args); [|exact H].
      apply all_forest_collapse; [apply shallow_by_shape, Ht|exact H]. }
    destruct (Args.remove_empty args); [|exact H1].
    apply all_forest_prune; assumption. }
  intros [H1 [H2 H3]]. repeat split.
  - apply Hback; [|exact H1].
    apply by_name_shallow, negb_by_name, matches_any_by_name.
  - intros E. apply Hback; [|exact (H2 E)].
    apply by_name_shallow, negb_by_name, found_comment_by_name.
  - apply Hback; [apply attrs_within_shallow|exact H3].
Qed.

Lemma clean_tree_cleaned (args : Args.t) (soup : BeautifulSoup) :
  cleaned args (root_contents (clean_tree args soup)).
Proof.
  destruct soup as [s]. rewrite clean_tree_passes. simpl root_contents.
  apply back_cleaned, front_cleaned.
Qed.

(** On a tree the first three passes have nothing to do with, they change
    nothing. *)
Lemma front_fixed (args : Args.t) (s : list node) :
  cleaned args s -> front args s = s.
Proof.
  intros [H1 [H2 H3]]. unfold front.
  rewrite (remove_nodes_fixed _ _ H1).
  destruct (Args.remove_comments args).
  - rewrite (remove_nodes_fixed _ _ (H2 eq_refl)). apply strip_attrs_fixed, H3.
  - apply strip_attrs_fixed, H3.
Qed.

(** ** Where an unwrapped tag's children go *)

Lemma nth_error_middle (A : Type) (l : list A) (i : nat) (mid post : list A) :
  i < List.length l ->
  forall j, nth_error (firstn i l ++ mid ++ post) (i + j)
            = nth_error (mid ++ post) j.
Proof.
  intros Hi j. rewrite nth_error_app2; rewrite length_firstn; [|lia].
  f_equal. lia.
Qed.

Lemma nth_error_at_cut (A : Type) (l : list A) (i : nat) (x : A) (post : list A) :
  i < List.length l -> nth_error (firstn i l ++ x :: post) i = Some x.
Proof.
  intros Hi. rewrite nth_error_app2; rewrite length_firstn; [|lia].
  replace (i - Nat.min i (List.length l)) with 0 by lia. reflexivity.
Qed.

Lemma match_snoc (A : Type) (pp : path) (i : nat) (X Y : A) :
  match pp ++ [i] with [] => X | _ :: _ => Y end = Y.
Proof. destruct pp; reflexivity. Qed.

Lemma children_at_cons (s : list node) (k : nat) (pp : path) (m : node) :
  nth_error s k = Some m ->
  children_at s (k :: pp) = children_at (node_contents m) pp.
Proof.
  intros Hk. unfold children_at. rewrite get_cons, Hk.
  destruct pp; reflexivity.
Qed.

Lemma get_app_cons (s : list node) (k : nat) (q : path) (i : nat) (m : node) :
  nth_error s k = Some m ->
  get s (k :: q ++ [i]) = get (node_contents m) (q ++ [i]).
Proof.
  intros Hk. rewrite get_cons, Hk. destruct q; reflexivity.
Qed.

Lemma unwrap_splice (pp : path) :
  forall (s : list node) (i j : nat) (E C : node),
    get s (pp ++ [i]) = Some E ->
    nth_error (node_contents E) j = Some C ->
    exists sibs,
      children_at s pp = Some sibs
      /\ nth_error sibs i = Some E
      /\ children_at (unwrap s (pp ++ [i])) pp
         = Some (firstn i sibs ++ node_contents E ++ skipn (S i) sibs)
      /\ get (unwrap s (pp ++ [i])) (pp ++ [i + j]) = Some C.
Proof.
  unfold unwrap.
  induction pp as [|k pp IH]; intros s i j E C Hg Hj.
  - change ([] ++ [i]) with [i] in *. change ([] ++ [i + j]) with [i + j].
    rewrite get_cons in Hg.
    destruct (nth_error s i) as [m|] eqn:Hi; [|discriminate].
    inversion Hg; subst m. exists s. rewrite replace_at_cons, Hi.
    split; [reflexivity|]. split; [reflexivity|]. split; [reflexivity|].
    assert (Hlt : i < List.length s) by (apply nth_error_Some; congruence).
    rewrite get_cons, (nth_error_middle _ _ _ _ _ Hlt).
    rewrite nth_error_app1 by (apply nth_error_Some; congruence).
    rewrite Hj. reflexivity.
  - change ((k :: pp) ++ [i]) with (k :: pp ++ [i]) in *.
    change ((k :: pp) ++ [i + j]) with (k :: pp ++ [i + j]).
    rewrite get_cons in Hg.
    destruct (nth_error s k) as [m|] eqn:Hk; [|discriminate].
    assert (Hg' : get (node_contents m) (pp ++ [i]) = Some E).
    { destruct pp; exact Hg. }
    assert (Hm : is_tag m = true).
    { destruct m; [reflexivity|]. simpl in Hg'.
      destruct pp; simpl in Hg'; [destruct i|destruct n]; discriminate. }
    destruct (IH _ _ _ _ _ Hg' Hj) as [sibs [H1 [H2 [H3 H4]]]].
    exists sibs. rewrite (children_at_cons _ _ pp _ Hk).
    split; [exact H1|]. split; [exact H2|]. split.
    + rewrite replace_at_cons, Hk.
      assert (Hlt : k < List.length s) by (apply nth_error_Some; congruence).
      set (m' := set_contents m (replace_at node_contents (node_contents m)
                                             (pp ++ [i]))).
      assert (Hk' : nth_error (firstn k s ++ m' :: skipn (S k) s) k = Some m').
      { apply nth_error_at_cut. exact Hlt. }
      rewrite match_snoc.
      rewrite (children_at_cons _ _ pp _ Hk').
      subst m'. destruct m; [exact H3|discriminate].
    + rewrite replace_at_cons, Hk.
      assert (Hlt : k < List.length s) by (apply nth_error_Some; congruence).
      set (m' := set_contents m (replace_at node_contents (node_contents m)
                                             (pp ++ [i]))).
      assert (Hk' : nth_error (firstn k s ++ m' :: skipn (S k) s) k = Some m').
      { apply nth_error_at_cut. exact Hlt. }
      rewrite match_snoc.
      rewrite (get_app_cons _ _ pp (i + j) _ Hk').
      subst m'. destruct m; [exact H4|discriminate].
Qed.

(** A wrapper has one significant child, a tag, standing somewhere among
    its contents. *)
Lemma wrapper_child (b : bool) (E : node) :
  is_wrapper b E = true ->
  exists C j, _significant_children E = [C] /\ is_tag C = true
              /\ nth_error (node_contents E) j = Some C.
Proof.
  unfold is_wrapper. destruct E as [nm pf at_ cs|k x]; [|discriminate].
  destruct (_significant_children (Tag nm pf at_ cs)) as [|C [|D r]] eqn:Hs;
    try discriminate.
  - destruct C as [cn cpf cat ccs|]; [|discriminate]. intros _.
    assert (Hin : In (Tag cn cpf cat ccs) cs).
    { unfold _significant_children in Hs. simpl node_contents in Hs.
      assert (H : In (Tag cn cpf cat ccs)
                     (filter (fun c => negb (insignificant c)) cs))
        by (rewrite Hs; left; reflexivity).
      apply filter_In in H. apply H. }
    destruct (In_nth_error _ _ Hin) as [j Hj].
    exists (Tag cn cpf cat ccs), j. repeat split. exact Hj.
  - destruct C; discriminate.
Qed.

Lemma path_snoc (p : path) : p <> [] -> exists pp i, p = pp ++ [i].
Proof.
  intros H. destruct (exists_last H) as [pp [i E]]. exists pp, i. exact E.
Qed.

(** ** Removal of a subtree before the Tag Remover *)

Lemma remove_nodes_decompose (m : node -> bool) (p : path) :
  shallow m ->
  forall (s : list node) (E : node),
    get s p = Some E -> m E = true ->
    remove_nodes m (decompose s p) = remove_nodes m s.
Proof.
  intros Hm. unfold decompose.
  induction p as [|i q IH]; intros s E Hg HE; [discriminate|].
  rewrite get_cons in Hg. rewrite replace_at_cons.
  destruct (nth_error s i) as [c|] eqn:Hi; [|discriminate].
  pose proof (nth_error_cut _ _ _ _ Hi) as Hs.
  remember (firstn i s) as pre eqn:Hpre.
  remember (skipn (S i) s) as post eqn:Hpost.
  rewrite Hs. clear Hs Hpre Hpost.
  destruct q as [|j q'].
  - inversion Hg; subst c. simpl app.
    rewrite !remove_nodes_app, remove_nodes_cons. f_equal.
    destruct E as [nm pf at_ cs|k x].
    + rewrite remove_node_tag, HE. reflexivity.
    + rewrite remove_node_str, HE. reflexivity.
  - assert (Hc : is_tag c = true) by (eapply get_is_tag_parent; eauto).
    destruct c as [nm pf at_ cs|]; [|discriminate].
    cbn [set_contents node_contents] in *.
    rewrite !remove_nodes_app, !remove_nodes_cons, !remove_node_tag.
    rewrite (IH _ _ Hg HE).
    change (Tag nm pf at_ (replace_at (fun _ => []) cs (j :: q')))
      with (set_contents (Tag nm pf at_ cs)
                         (replace_at (fun _ => []) cs (j :: q'))).
    rewrite Hm. reflexivity.
Qed.

Lemma matches_any_name (names : list string) (name : string) (n : node) :
  In name names -> node_name n = Some name -> matches_any names n = true.
Proof.
  intros Hin Hn. unfold matches_any. apply existsb_exists.
  exists name. split; [exact Hin|].
  destruct n as [nm pf at_ cs|]; [|discriminate].
  inversion Hn; subst nm. unfold name_matches.
  rewrite String.eqb_refl. reflexivity.
Qed.

(** ** The loops on their own results *)

Lemma collapse_normal (b : bool) (s : list node) :
  scan (is_wrapper b) (collapse b s) = None.
Proof.
  pose proof (minimize_loop_exit b s) as H.
  rewrite minimize_nesting_collapse in H. exact H.
Qed.

Lemma prune_normal (s : list node) : scan is_empty (prune s) = None.
Proof.
  pose proof (remove_empty_loop_exit s) as H.
  rewrite remove_empty_tags_prune in H. exact H.
Qed.

Lemma not_empty_by_shape (b : bool) :
  by_shape b (fun n => negb (is_tag n && is_empty n)).
Proof.
  intros [nm pf at_ cs|k x] cs' H; [|reflexivity].
  cbn [set_contents is_tag andb]. simpl node_contents in H.
  rewrite (is_empty_shape b (Tag nm pf at_ cs')),
    (is_empty_shape b (Tag nm pf at_ cs)).
  simpl node_contents. rewrite H. reflexivity.
Qed.

(** Unwrapping leaves no tag empty that was not. *)
Lemma collapse_keeps_nonempty (b : bool) (s : list node) :
  scan is_empty s = None -> scan is_empty (collapse b s) = None.
Proof.
  rewrite !scan_None_no_tag. unfold no_tag.
  apply all_forest_collapse. apply not_empty_by_shape.
Qed.

Lemma back_once (args : Args.t) (s : list node) :
  Args.minimize_nesting args && Args.remove_empty args = false ->
  back args (back args s) = back args s.
Proof.
  unfold back.
  destruct (Args.minimize_nesting args), (Args.remove_empty args);
    try discriminate; intros _.
  - apply collapse_fixed, collapse_normal.
  - apply prune_fixed, prune_normal.
  - reflexivity.
Qed.

Lemma back_twice (args : Args.t) (s : list node) :
  back args (back args (back args s)) = back args (back args s).
Proof.
  destruct (Args.minimize_nesting args && Args.remove_empty args) eqn:E.
  - apply andb_prop in E. destruct E as [E1 E2]. unfold back.
    rewrite E1, E2. set (b := Args.same_name_only args).
    set (t1 := prune (collapse b s)).
    assert (H2 : prune (collapse b t1) = collapse b t1).
    { apply prune_fixed, collapse_keeps_nonempty, prune_normal. }
    rewrite H2.
    rewrite (collapse_fixed b (collapse b t1)) by apply collapse_normal.
    exact H2.
  - rewrite (back_once args (back args s) E). reflexivity.
Qed.

(** ** Configurations with the same members *)

Lemma same_members_In (l1 l2 : list string) :
  same_members l1 l2 = true -> forall x, In x l1 <-> In x l2.
Proof.
  unfold same_members. intros H x. apply andb_prop in H.
  destruct H as [H1 H2]. rewrite forallb_forall in H1, H2.
  split; intros Hx; apply mem_In; auto.
Qed.

Lemma same_members_refl (l : list string) : same_members l l = true.
Proof.
  unfold same_members.
  assert (H : forallb (fun x => mem x l) l = true).
  { apply forallb_forall. intros x Hx. apply mem_In. exact Hx. }
  rewrite H. reflexivity.
Qed.

Lemma same_config_refl (a : Args.t) : same_config a a = true.
Proof.
  unfold same_config.
  rewrite String.eqb_refl, !same_members_refl, !Bool.eqb_reflx. reflexivity.
Qed.

Lemma matches_any_members (l1 l2 : list string) (n : node) :
  same_members l1 l2 = true -> matches_any l1 n = matches_any l2 n.
Proof.
  intros H. pose proof (same_members_In _ _ H) as Hin.
  unfold matches_any. apply eq_iff_eq_true.
  rewrite !existsb_exists. split; intros [q [Hq Hm]]; exists q;
    (split; [apply Hin; exact Hq|exact Hm]).
Qed.

Lemma mem_members (l1 l2 : list string) (k : string) :
  same_members l1 l2 = true -> mem k l1 = mem k l2.
Proof.
  intros H. apply eq_iff_eq_true. rewrite !mem_In.
  apply same_members_In, H.
Qed.

Lemma strip_attrs_members (l1 l2 : list string) (s : list node) :
  same_members l1 l2 = true -> strip_attrs l1 s = strip_attrs l2 s.
Proof.
  intros H.
  assert (Hnode : forall n, strip_attrs_node l1 n = strip_attrs_node l2 n).
  { induction n as [nm pf at_ cs IH|k x] using node_ind; [|reflexivity].
    rewrite !strip_attrs_node_tag. f_equal.
    - unfold keep_only. apply filter_ext. intros kv. apply mem_members, H.
    - unfold strip_attrs. apply map_ext_in. rewrite Forall_forall in IH.
      exact IH. }
  unfold strip_attrs. apply map_ext. exact Hnode.
Qed.

Lemma same_config_fields (a1 a2 : Args.t) :
  same_config a1 a2 = true ->
  Args.parser a1 = Args.parser a2
  /\ same_members (Args.remove_tag a1) (Args.remove_tag a2) = true
  /\ same_members (keep_set a1) (keep_set a2) = true
  /\ Args.remove_comments a1 = Args.remove_comments a2
  /\ Args.same_name_only a1 = Args.same_name_only a2
  /\ Args.minimize_nesting a1 = Args.minimize_nesting a2
  /\ Args.remove_empty a1 = Args.remove_empty a2
  /\ Args.prettify a1 = Args.prettify a2.
Proof.
  unfold same_config. intros H.
  repeat (apply andb_prop in H; destruct H as [H ?]).
  repeat split;
    try (apply Bool.eqb_prop; assumption); try assumption.
  apply String.eqb_eq. exact H.
Qed.

Lemma clean_tree_members (a1 a2 : Args.t) (soup : BeautifulSoup) :
  same_config a1 a2 = true -> clean_tree a1 soup = clean_tree a2 soup.
Proof.
  intros H. destruct (same_config_fields _ _ H)
    as [_ [Hr [Hk [Hc [Hs [Hm [He _]]]]]]].
  destruct soup as [s].
  rewrite !clean_tree_passes. unfold back, front.
  rewrite <- Hc, <- Hs, <- Hm, <- He.
  rewrite (remove_nodes_ext _ _ s (fun n => matches_any_members _ _ n Hr)).
  rewrite (strip_attrs_members _ _ _ Hk). reflexivity.
Qed.

(** ** Significance *)

Lemma insignificant_string (k : string_class) (x : pystr) :
  insignificant (NavigableString k x) = forallb py_isspace x.
Proof.
  simpl. apply eq_iff_eq_true. rewrite negb_true_iff. apply strip_falsy_iff.
Qed.

(** A significant string among the children of a tag keeps it from being
    a wrapper. *)
Lemma significant_string_blocks (b : bool) (nm : string) (pf : option string)
  (at_ : attrs_t) (cs : list node) (c : node) :
  In c cs -> is_tag c = false -> insignificant c = false ->
  is_wrapper b (Tag nm pf at_ cs) = false.
Proof.
  intros Hin Ht Hs. unfold is_wrapper.
  assert (H : In c (_significant_children (Tag nm pf at_ cs))).
  { unfold _significant_children. apply filter_In. split; [exact Hin|].
    rewrite Hs. reflexivity. }
  destruct (_significant_children (Tag nm pf at_ cs)) as [|d [|e r]];
    [reflexivity| |destruct d; reflexivity].
  destruct H as [H|[]]. subst d. destruct c; [discriminate|reflexivity].
Qed.

(** * Further properties of the passes *)

(** ** Measures that go through [flat_map] *)

Lemma strings_of_app (s1 s2 : list node) :
  strings_of (s1 ++ s2) = strings_of s1 ++ strings_of s2.
Proof. apply flat_map_app. Qed.

Lemma strings_of_tag (nm : string) (pf : option string) (at_ : attrs_t)
  (cs : list node) :
  strings_of [Tag nm pf at_ cs] = strings_of cs.
Proof. unfold strings_of. simpl. apply app_nil_r. Qed.

Lemma significant_strings_app (s1 s2 : list node) :
  significant_strings (s1 ++ s2)
  = significant_strings s1 ++ significant_strings s2.
Proof.
  unfold significant_strings. rewrite strings_of_app. apply filter_app.
Qed.

Lemma significant_strings_tag (nm : string) (pf : option string)
  (at_ : attrs_t) (cs : list node) :
  significant_strings [Tag nm pf at_ cs] = significant_strings cs.
Proof. unfold significant_strings. rewrite strings_of_tag. reflexivity. Qed.

Lemma attributed_app (s1 s2 : list node) :
  attributed (s1 ++ s2) = attributed s1 ++ attributed s2.
Proof. apply flat_map_app. Qed.

Lemma tag_names_app (s1 s2 : list node) :
  tag_names (s1 ++ s2) = tag_names s1 ++ tag_names s2.
Proof. apply flat_map_app. Qed.

Lemma depth_app (s1 s2 : list node) :
  depth (s1 ++ s2) = Nat.max (depth s1) (depth s2).
Proof. unfold depth. rewrite map_app. apply list_max_app. Qed.

Lemma depth_one (n : node) : depth [n] = depth_node n.
Proof. unfold depth. simpl. apply Nat.max_0_r. Qed.

(** A measure of child sequences that splits over concatenation is the
    same after a node-wise rewriting that keeps it on every node. *)
Lemma measure_flat_map (B : Type) (g : list node -> list B)
  (f : node -> list node) (s : list node) :
  (forall a b, g (a ++ b) = g a ++ g b) ->
  Forall (fun c => g (f c) = g [c]) s ->
  g (flat_map f s) = g s.
Proof.
  intros Happ. induction 1 as [|c r Hc _ IH]; [reflexivity|].
  simpl flat_map. rewrite Happ, Hc, IH, <- Happ. reflexivity.
Qed.

Lemma wrapper_no_attrs (b : bool) (nm : string) (pf : option string)
  (at_ : attrs_t) (cs : list node) :
  is_wrapper b (Tag nm pf at_ cs) = true -> at_ = [].
Proof.
  rewrite is_wrapper_shape.
  destruct (shape b cs) as [|[cn|] [|? ?]]; try discriminate.
  destruct at_; [reflexivity|discriminate].
Qed.

(** ** [minimize_nesting]: strings, attributes, names, depth *)

Lemma collapse_strings (b : bool) (s : list node) :
  strings_of (collapse b s) = strings_of s.
Proof.
  assert (Hnode : forall n, strings_of (collapse_node b n) = strings_of [n]).
  { induction n as [nm pf at_ cs IH|k x] using node_ind; [|reflexivity].
    rewrite collapse_node_tag.
    pose proof (measure_flat_map _ strings_of (collapse_node b) cs
                  strings_of_app IH) as Hcs.
    fold (collapse b cs) in Hcs.
    destruct (is_wrapper b (Tag nm pf at_ (collapse b cs)));
      rewrite ?strings_of_tag; exact Hcs. }
  apply measure_flat_map; [apply strings_of_app|].
  apply Forall_forall. intros c _. apply Hnode.
Qed.

Lemma attributed_tag (nm : string) (pf : option string) (at_ : attrs_t)
  (cs : list node) :
  attributed [Tag nm pf at_ cs]
  = match at_ with
    | [] => attributed cs
    | _ :: _ => (nm, pf, at_) :: attributed cs
    end.
Proof.
  unfold attributed. simpl. destruct at_; rewrite app_nil_r; reflexivity.
Qed.

Lemma collapse_attributed (b : bool) (s : list node) :
  attributed (collapse b s) = attributed s.
Proof.
  assert (Hnode : forall n, attributed (collapse_node b n) = attributed [n]).
  { induction n as [nm pf at_ cs IH|k x] using node_ind; [|reflexivity].
    rewrite collapse_node_tag.
    pose proof (measure_flat_map _ attributed (collapse_node b) cs
                  attributed_app IH) as Hcs.
    fold (collapse b cs) in Hcs.
    destruct (is_wrapper b (Tag nm pf at_ (collapse b cs))) eqn:Hw.
    - apply wrapper_no_attrs in Hw. subst at_.
      rewrite attributed_tag. exact Hcs.
    - rewrite !attributed_tag, Hcs. reflexivity. }
  apply measure_flat_map; [apply attributed_app|].
  apply Forall_forall. intros c _. apply Hnode.
Qed.

Lemma tag_names_In (s : list node) (x : string) :
  In x (tag_names s) <-> exists c, In c s /\ In x (tag_names_node c).
Proof. unfold tag_names. apply in_flat_map. Qed.

Lemma same_name_wrapper_child (nm : string) (pf : option string)
  (at_ : attrs_t) (cs : list node) :
  is_wrapper true (Tag nm pf at_ cs) = true -> In nm (tag_names cs).
Proof.
  intros Hw. destruct (wrapper_child _ _ Hw) as [C [j [Hs [_ Hj]]]].
  unfold is_wrapper in Hw. rewrite Hs in Hw.
  destruct C as [cn cpf cat ccs|]; [|discriminate].
  destruct at_; [|discriminate]. simpl in Hw.
  rewrite negb_involutive in Hw. apply String.eqb_eq in Hw. subst cn.
  apply tag_names_In. exists (Tag nm cpf cat ccs). split.
  - exact (nth_error_In _ _ Hj).
  - left. reflexivity.
Qed.

Lemma collapse_tag_names (s : list node) (x : string) :
  In x (tag_names (collapse true s)) <-> In x (tag_names s).
Proof.
  assert (Hlift : forall cs,
             Forall (fun c => forall y,
                         In y (tag_names (collapse_node true c))
                         <-> In y (tag_names_node c)) cs ->
             forall y, In y (tag_names (collapse true cs))
                       <-> In y (tag_names cs)).
  { induction 1 as [|c r Hc _ IH]; intros y; [reflexivity|].
    unfold collapse. simpl flat_map. fold (collapse true r).
    change (c :: r) with ([c] ++ r).
    rewrite !tag_names_app, !in_app_iff, Hc, IH.
    unfold tag_names at 2. simpl. rewrite app_nil_r. reflexivity. }
  assert (Hnode : forall n y,
             In y (tag_names (collapse_node true n))
             <-> In y (tag_names_node n)).
  { induction n as [nm pf at_ cs IH|k z] using node_ind; intros y;
      [|reflexivity].
    rewrite collapse_node_tag. specialize (Hlift cs IH).
    destruct (is_wrapper true (Tag nm pf at_ (collapse true cs))) eqn:Hw.
    - apply same_name_wrapper_child in Hw. simpl. fold (tag_names cs).
      rewrite Hlift. split; [auto|].
      intros [E|H]; [subst y; apply Hlift; exact Hw|exact H].
    - unfold tag_names at 1. simpl. rewrite app_nil_r.
      fold (tag_names (collapse true cs)). fold (tag_names cs).
      rewrite Hlift. reflexivity. }
  apply Hlift. apply Forall_forall. intros c _. apply Hnode.
Qed.

Lemma collapse_depth (b : bool) (s : list node) :
  depth (collapse b s) <= depth s.
Proof.
  assert (Hlift : forall cs,
             Forall (fun c => depth (collapse_node b c) <= depth_node c) cs ->
             depth (collapse b cs) <= depth cs).
  { induction 1 as [|c r Hc _ IH]; [apply Nat.le_refl|].
    unfold collapse. simpl flat_map. fold (collapse b r).
    change (c :: r) with ([c] ++ r).
    rewrite !depth_app, depth_one. lia. }
  assert (Hnode : forall n, depth (collapse_node b n) <= depth_node n).
  { induction n as [nm pf at_ cs IH|k z] using node_ind;
      [|simpl; rewrite depth_one; apply Nat.le_refl].
    rewrite collapse_node_tag. specialize (Hlift cs IH).
    destruct (is_wrapper b (Tag nm pf at_ (collapse b cs))).
    - simpl. fold (depth cs). lia.
    - rewrite depth_one. simpl. fold (depth cs).
      fold (depth (collapse b cs)). lia. }
  apply Hlift. apply Forall_forall. intros c _. apply Hnode.
Qed.

(** ** [remove_empty_tags]: significant strings *)

Lemma insignificant_children_strings (cs : list node) :
  filter (fun c => negb (insignificant c)) cs = [] ->
  significant_strings cs = [].
Proof.
  induction cs as [|c r IH]; [reflexivity|]. simpl filter.
  destruct (negb (insignificant c)) eqn:E; [discriminate|].
  intros H. change (c :: r) with ([c] ++ r).
  rewrite significant_strings_app, (IH H), app_nil_r.
  destruct c as [nm pf at_ ccs|k x]; [discriminate|].
  unfold significant_strings, strings_of.
  cbn [flat_map strings_of_node app filter]. rewrite E. reflexivity.
Qed.

Lemma prune_node_significant_strings (n : node) :
  significant_strings (prune_node n) = significant_strings [n].
Proof.
  induction n as [nm pf at_ cs IH|k x] using node_ind; [|reflexivity].
  rewrite prune_node_tag.
  pose proof (measure_flat_map _ significant_strings prune_node cs
                significant_strings_app IH) as Hcs.
  fold (prune cs) in Hcs. rewrite significant_strings_tag.
  destruct (is_empty (Tag nm pf at_ (prune cs))) eqn:He.
  - rewrite <- Hcs. symmetry. apply insignificant_children_strings.
    unfold is_empty, _significant_children in He. simpl node_contents in He.
    destruct (filter (fun c => negb (insignificant c)) (prune cs));
      [reflexivity|discriminate].
  - rewrite significant_strings_tag. exact Hcs.
Qed.

Lemma prune_significant_strings (s : list node) :
  significant_strings (prune s) = significant_strings s.
Proof.
  apply measure_flat_map; [apply significant_strings_app|].
  apply Forall_forall. intros c _. apply prune_node_significant_strings.
Qed.

Lemma no_significant_strings_pruned (s : list node) :
  significant_strings s = [] ->
  filter (fun c => negb (insignificant c)) (prune s) = [].
Proof.
  assert (Hlift : forall cs,
             Forall (fun c => significant_strings [c] = [] ->
                              filter (fun d => negb (insignificant d))
                                     (prune_node c) = []) cs ->
             significant_strings cs = [] ->
             filter (fun d => negb (insignificant d)) (prune cs) = []).
  { induction 1 as [|c r Hc _ IH]; [reflexivity|].
    change (c :: r) with ([c] ++ r). rewrite significant_strings_app.
    intros H. apply app_eq_nil in H. destruct H as [H1 H2].
    rewrite prune_app, filter_app, (IH H2), app_nil_r.
    unfold prune. simpl flat_map. rewrite app_nil_r. exact (Hc H1). }
  assert (Hnode : forall n, significant_strings [n] = [] ->
                            filter (fun d => negb (insignificant d))
                                   (prune_node n) = []).
  { induction n as [nm pf at_ cs IH|k x] using node_ind.
    - rewrite significant_strings_tag, prune_node_tag. intros H.
      specialize (Hlift cs IH H).
      unfold is_empty, _significant_children. simpl node_contents.
      rewrite Hlift. reflexivity.
    - intros H. exact H. }
  apply Hlift. apply Forall_forall. intros c _. apply Hnode.
Qed.

Lemma prune_tag_gone (nm : string) (pf : option string) (at_ : attrs_t)
  (cs : list node) :
  prune_node (Tag nm pf at_ cs) = [] <-> significant_strings cs = [].
Proof.
  rewrite prune_node_tag. split.
  - destruct (is_empty (Tag nm pf at_ (prune cs))) eqn:He; [|discriminate].
    intros _. rewrite <- prune_significant_strings.
    apply insignificant_children_strings.
    unfold is_empty, _significant_children in He. simpl node_contents in He.
    destruct (filter (fun c => negb (insignificant c)) (prune cs));
      [reflexivity|discriminate].
  - intros H. apply no_significant_strings_pruned in H.
    unfold is_empty, _significant_children. simpl node_contents.
    rewrite H. reflexivity.
Qed.

(** ** Counting the wrappers *)

Lemma count_forest_app (t : node -> bool) (s1 s2 : list node) :
  count_forest t (s1 ++ s2) = count_forest t s1 + count_forest t s2.
Proof. unfold count_forest. rewrite map_app. apply list_sum_app. Qed.

Lemma filter_map_length (A B : Type) (f : B -> bool) (g : A -> B)
  (l : list A) :
  List.length (filter f (map g l))
  = List.length (filter (fun a => f (g a)) l).
Proof.
  induction l as [|a l IH]; [reflexivity|]. simpl.
  destruct (f (g a)); simpl; rewrite IH; reflexivity.
Qed.

Lemma holds_at_cons (t : node -> bool) (s : list node) (i j : nat)
  (q : path) (n : node) :
  nth_error s i = Some n ->
  holds_at t s (i :: j :: q) = holds_at t (node_contents n) (j :: q).
Proof. intros H. unfold holds_at. rewrite get_cons, H. reflexivity. Qed.

Lemma tags_from_nonempty (f : node -> list path) (s : list node) (i0 : nat)
  (q : path) :
  In q (tags_from f i0 s) -> exists j r, q = j :: r.
Proof.
  intros H. apply tags_from_In in H.
  destruct H as [i [r [n [E _]]]]. eauto.
Qed.

Lemma tags_from_cons (f : node -> list path) (i : nat) (n : node)
  (r : list node) :
  tags_from f i (n :: r) = map (cons i) (f n) ++ tags_from f (S i) r.
Proof. reflexivity. Qed.

Lemma count_tags_from (t : node -> bool) (r : list node) :
  Forall (fun n => forall s i0,
              nth_error s i0 = Some n ->
              List.length (filter (holds_at t s)
                                  (map (cons i0) (tag_paths n)))
              = count_node t n) r ->
  forall s i0,
    (forall k, nth_error s (i0 + k) = nth_error r k) ->
    List.length (filter (holds_at t s) (tags_from tag_paths i0 r))
    = count_forest t r.
Proof.
  induction 1 as [|n r Hn _ IH]; intros s i0 Hs; [reflexivity|].
  rewrite tags_from_cons, filter_app, length_app.
  change (n :: r) with ([n] ++ r). rewrite count_forest_app.
  f_equal.
  - transitivity (count_node t n).
    + apply (Hn s i0). rewrite <- (Nat.add_0_r i0). rewrite Hs. reflexivity.
    + unfold count_forest. simpl. lia.
  - apply IH. intros k. replace (S i0 + k) with (i0 + S k) by lia.
    exact (Hs (S k)).
Qed.

Lemma count_tag_paths (t : node -> bool) (n : node) :
  forall s i0,
    nth_error s i0 = Some n ->
    List.length (filter (holds_at t s) (map (cons i0) (tag_paths n)))
    = count_node t n.
Proof.
  induction n as [nm pf at_ cs IH|k x] using node_ind; intros s i0 Hi;
    [|reflexivity].
  simpl tag_paths. simpl map. simpl filter.
  assert (Hhead : holds_at t s [i0] = t (Tag nm pf at_ cs)).
  { unfold holds_at. simpl. rewrite Hi. reflexivity. }
  rewrite Hhead.
  assert (Hrest :
            List.length (filter (holds_at t s)
                           (map (cons i0) (tags_from tag_paths 0 cs)))
            = count_forest t cs).
  { rewrite filter_map_length.
    rewrite (filter_ext_in (fun a => holds_at t s (i0 :: a))
                           (holds_at t cs)).
    - apply (count_tags_from t cs IH cs 0). intros k. reflexivity.
    - intros q Hq. destruct (tags_from_nonempty _ _ _ _ Hq) as [j [r ->]].
      apply (holds_at_cons t s i0 j r _ Hi). }
  cbn [count_node]. fold (count_forest t cs).
  destruct (t (Tag nm pf at_ cs)); simpl; rewrite Hrest; reflexivity.
Qed.

Lemma count_found_forest (t : node -> bool) (s : list node) :
  count_found t s = count_forest t s.
Proof.
  unfold count_found, find_all_True.
  apply count_tags_from; [|intros k; reflexivity].
  apply Forall_forall. intros n _. apply count_tag_paths.
Qed.

Lemma collapse_size (b : bool) (s : list node) :
  forest_size (collapse b s) + count_forest (is_wrapper b) s = forest_size s.
Proof.
  assert (Hlift : forall cs,
             Forall (fun c => forest_size (collapse_node b c)
                              + count_node (is_wrapper b) c
                              = node_size c) cs ->
             forest_size (collapse b cs) + count_forest (is_wrapper b) cs
             = forest_size cs).
  { induction 1 as [|c r Hc _ IH]; [reflexivity|].
    unfold collapse. simpl flat_map. fold (collapse b r).
    rewrite forest_size_app, forest_size_cons.
    change (c :: r) with ([c] ++ r). rewrite count_forest_app.
    unfold count_forest at 1. simpl. lia. }
  assert (Hnode : forall n, forest_size (collapse_node b n)
                            + count_node (is_wrapper b) n = node_size n).
  { induction n as [nm pf at_ cs IH|k x] using node_ind; [|reflexivity].
    rewrite collapse_node_tag, is_wrapper_collapse. specialize (Hlift cs IH).
    cbn [count_node node_size]. fold (count_forest (is_wrapper b) cs).
    fold (forest_size cs).
    destruct (is_wrapper b (Tag nm pf at_ cs)).
    - lia.
    - rewrite forest_size_cons. cbn [node_size].
      fold (forest_size (collapse b cs)).
      change (forest_size []) with 0. lia. }
  apply Hlift. apply Forall_forall. intros c _. apply Hnode.
Qed.

(** ** The passes before the loops *)

Lemma remove_nodes_strip_attrs (m : node -> bool) (keep : list string)
  (s : list node) :
  by_name m ->
  remove_nodes m (strip_attrs keep s) = strip_attrs keep (remove_nodes m s).
Proof.
  intros Hm.
  assert (Hlift : forall cs,
             Forall (fun c => remove_node m (strip_attrs_node keep c)
                              = strip_attrs keep (remove_node m c)) cs ->
             remove_nodes m (strip_attrs keep cs)
             = strip_attrs keep (remove_nodes m cs)).
  { induction 1 as [|c r Hc _ IH]; [reflexivity|].
    unfold strip_attrs at 1. simpl map. fold (strip_attrs keep r).
    rewrite !remove_nodes_cons, Hc, IH. unfold strip_attrs.
    rewrite map_app. reflexivity. }
  assert (Hnode : forall n, remove_node m (strip_attrs_node keep n)
                            = strip_attrs keep (remove_node m n)).
  { induction n as [nm pf at_ cs IH|k x] using node_ind.
    - rewrite strip_attrs_node_tag, !remove_node_tag.
      rewrite (Hm nm pf (keep_only keep at_) at_ (strip_attrs keep cs) cs).
      destruct (m (Tag nm pf at_ cs)); [reflexivity|].
      rewrite (Hlift cs IH). reflexivity.
    - simpl strip_attrs_node. rewrite remove_node_str.
      destruct (m (NavigableString k x)); reflexivity. }
  apply Hlift. apply Forall_forall. intros c _. apply Hnode.
Qed.

Lemma strip_attrs_strings (keep : list string) (s : list node) :
  strings_of (strip_attrs keep s) = strings_of s.
Proof.
  assert (Hlift : forall cs,
             Forall (fun c => strings_of_node (strip_attrs_node keep c)
                              = strings_of_node c) cs ->
             strings_of (strip_attrs keep cs) = strings_of cs).
  { induction 1 as [|c r Hc _ IH]; [reflexivity|].
    unfold strip_attrs, strings_of in *. simpl. rewrite Hc, IH.
    reflexivity. }
  assert (Hnode : forall n, strings_of_node (strip_attrs_node keep n)
                            = strings_of_node n).
  { induction n as [nm pf at_ cs IH|k x] using node_ind; [|reflexivity].
    rewrite strip_attrs_node_tag. simpl strings_of_node.
    exact (Hlift cs IH). }
  apply Hlift. apply Forall_forall. intros c _. apply Hnode.
Qed.

Lemma back_significant_strings (args : Args.t) (s : list node) :
  significant_strings (back args s) = significant_strings s.
Proof.
  unfold back.
  assert (H : significant_strings
                (if Args.minimize_nesting args
                 then collapse (Args.same_name_only args) s else s)
              = significant_strings s).
  { destruct (Args.minimize_nesting args); [|reflexivity].
    unfold significant_strings. rewrite collapse_strings. reflexivity. }
  destruct (Args.remove_empty args); [|exact H].
  rewrite prune_significant_strings. exact H.
Qed.

(** ** The command line *)

Lemma parse_args_cases (w : World) (args : Namespace.t) :
  (acceptable w args = true
   /\ parse_args w args
      = ([Stderr ("input: " ++ or_else (Namespace.input args) "<stdin>");
          Stderr ("output: " ++ or_else (Namespace.output args) "-")],
         inr args))
  \/ (acceptable w args = false
      /\ exists tr e, parse_args w args = (tr, inl e)
                      /\ filter is_output tr = []).
Proof.
  destruct args as [i o opts]. unfold parse_args, acceptable.
  cbn [Namespace.input Namespace.output].
  destruct i as [[|c r]|]; cbn [given path_of];
    destruct (stdin_isatty w); cbn [negb andb orb xorb when];
    try (right; split; [reflexivity|]; do 2 eexists; split; reflexivity).
  - destruct o as [out|].
    + destruct (isdir w out) eqn:Hd;
        [right; split; [reflexivity|]; do 2 eexists; split; reflexivity|].
      destruct (path_exists w out) eqn:He;
        [right; split; [reflexivity|]; do 2 eexists; split; reflexivity|].
      left. split; reflexivity.
    + left. split; reflexivity.
  - destruct (isfile w (String c r)) eqn:Hf;
      [|right; split; [reflexivity|]; do 2 eexists; split; reflexivity].
    destruct o as [out|].
    + destruct (isdir w out) eqn:Hd;
        [right; split; [reflexivity|]; do 2 eexists; split; reflexivity|].
      destruct (path_exists w out) eqn:He;
        [right; split; [reflexivity|]; do 2 eexists; split; reflexivity|].
      left. split; reflexivity.
    + left. split; reflexivity.
  - destruct o as [out|].
    + destruct (isdir w out) eqn:Hd;
        [right; split; [reflexivity|]; do 2 eexists; split; reflexivity|].
      destruct (path_exists w out) eqn:He;
        [right; split; [reflexivity|]; do 2 eexists; split; reflexivity|].
      left. split; reflexivity.
    + left. split; reflexivity.
Qed.

Lemma main_accepted
  (parse : string -> string -> BeautifulSoup)
  (prettify to_str : BeautifulSoup -> string)
  (w : World) (args : Namespace.t) :
  acceptable w args = true ->
  main parse prettify to_str w args
  = (let (tr, r) := deliver parse prettify to_str w args in
     ([Stderr ("input: " ++ or_else (Namespace.input args) "<stdin>");
       Stderr ("output: " ++ or_else (Namespace.output args) "-")] ++ tr, r)).
Proof.
  intros Ha. unfold main.
  destruct (parse_args_cases w args) as [[_ H]|[H _]]; [|congruence].
  rewrite H. reflexivity.
Qed.

Lemma main_rejected
  (parse : string -> string -> BeautifulSoup)
  (prettify to_str : BeautifulSoup -> string)
  (w : World) (args : Namespace.t) :
  acceptable w args = false ->
  exists tr e, main parse prettify to_str w args = (tr, inl e)
               /\ filter is_output tr = [].
Proof.
  intros Ha. unfold main.
  destruct (parse_args_cases w args) as [[H _]|[_ [tr [e [H Ho]]]]];
    [congruence|].
  exists tr, e. rewrite H. split; [reflexivity|exact Ho].
Qed.

Lemma acceptable_output (w : World) (args : Namespace.t) (out : string) :
  acceptable w args = true -> Namespace.output args = Some out ->
  isdir w out = false /\ path_exists w out = false.
Proof.
  unfold acceptable. intros H Ho. rewrite Ho in H.
  apply andb_prop in H. destruct H as [_ H].
  apply andb_prop in H. destruct H as [H1 H2].
  apply negb_true_iff in H1. apply negb_true_iff in H2. auto.
Qed.

(** ** What [remove_empty_tags] leaves *)

Lemma all_nodes_get (t : node -> bool) (p : path) :
  forall s n, all_forest t s = true -> get s p = Some n ->
              all_nodes t n = true.
Proof.
  induction p as [|i q IH]; intros s n H Hg; [discriminate|].
  rewrite get_cons in Hg.
  destruct (nth_error s i) as [m|] eqn:Hi; [|discriminate].
  unfold all_forest in H. rewrite forallb_forall in H.
  pose proof (H m (nth_error_In _ _ Hi)) as Hm.
  destruct q; [congruence|].
  rewrite all_nodes_unfold in Hm. apply andb_prop in Hm.
  exact (IH _ _ (proj2 Hm) Hg).
Qed.

Lemma significant_strings_In (c : node) (cs : list node) :
  In c cs -> significant_strings [c] <> [] -> significant_strings cs <> [].
Proof.
  intros Hin Hc H. apply in_split in Hin. destruct Hin as [l1 [l2 E]].
  subst cs. change (c :: l2) with ([c] ++ l2) in H.
  rewrite !significant_strings_app in H.
  apply app_eq_nil in H. destruct H as [_ H].
  apply app_eq_nil in H. destruct H as [H _]. exact (Hc H).
Qed.

Lemma nonempty_tag_has_text (n : node) :
  all_nodes (fun m => negb (is_tag m && is_empty m)) n = true ->
  is_tag n = true -> significant_strings [n] <> [].
Proof.
  induction n as [nm pf at_ cs IH|k x] using node_ind; [|discriminate].
  rewrite all_nodes_unfold. intros H _. apply andb_prop in H.
  destruct H as [Hn Hcs]. cbn [is_tag node_contents andb] in Hn, Hcs.
  apply negb_true_iff in Hn. rewrite significant_strings_tag.
  unfold is_empty, _significant_children in Hn. simpl node_contents in Hn.
  destruct (filter (fun c => negb (insignificant c)) cs) as [|c r] eqn:Hf;
    [discriminate|].
  assert (Hc : In c (filter (fun d => negb (insignificant d)) cs))
    by (rewrite Hf; left; reflexivity).
  apply filter_In in Hc. destruct Hc as [Hin Hsig].
  apply (significant_strings_In c cs Hin).
  destruct c as [cn cpf cat ccs|ck cx].
  - rewrite Forall_forall in IH. apply (IH _ Hin); [|reflexivity].
    unfold all_forest in Hcs. rewrite forallb_forall in Hcs.
    exact (Hcs _ Hin).
  - unfold significant_strings, strings_of.
    cbn [flat_map strings_of_node app filter]. rewrite Hsig. discriminate.
Qed.


Lemma bind_ret (A B : Type) (a : A) (f : A -> prog B) :
  bind (ret a) f = f a.
Proof. unfold bind, ret. destruct (f a). reflexivity. Qed.

Lemma deliver_events
  (parse : string -> string -> BeautifulSoup)
  (prettify to_str : BeautifulSoup -> string)
  (w : World) (args : Namespace.t) (ev : event) :
  In ev (fst (deliver parse prettify to_str w args)) ->
  match ev with
  | FileOpen p | FileWrite p _ => Namespace.output args = Some p
  | Stdout _ => Namespace.output args = None
  | Stderr _ | ParserError _ => False
  end.
Proof.
  unfold deliver.
  assert (Hrest : forall html,
             In ev (fst (out_text <-
                           (if cleans w html (Namespace.options args)
                            then ret (clean_html parse prettify to_str html
                                                 (Namespace.options args))
                            else raise OtherException) ;;
                         match Namespace.output args with
                         | None =>
                             if prints w out_text then emit (Stdout out_text)
                             else raise OtherException
                         | Some out =>
                             (if writable w out then emit (FileOpen out)
                              else raise OSError) ;;
                             if writes w out out_text
                             then emit (FileWrite out out_text)
                             else raise OtherException
                         end)) ->
             match ev with
             | FileOpen p | FileWrite p _ => Namespace.output args = Some p
             | Stdout _ => Namespace.output args = None
             | Stderr _ | ParserError _ => False
             end).
  { intros html.
    destruct (cleans w html (Namespace.options args));
      [|simpl; contradiction].
    destruct (Namespace.output args) as [out|].
    - destruct (writable w out); [|simpl; contradiction].
      simpl.
      destruct (writes w out
                  (clean_html parse prettify to_str html
                              (Namespace.options args)));
        simpl; intros Hin;
        repeat (destruct Hin as [Hin|Hin]); try contradiction;
        subst ev; reflexivity.
    - simpl.
      destruct (prints w
                  (clean_html parse prettify to_str html
                              (Namespace.options args)));
        simpl; intros Hin;
        repeat (destruct Hin as [Hin|Hin]); try contradiction;
        subst ev; reflexivity. }
  unfold read_input.
  destruct (given (Namespace.input args));
    [destruct (read_text w (path_of (Namespace.input args))) as [html|]|].
  - rewrite bind_ret. apply (Hrest html).
  - simpl. contradiction.
  - rewrite bind_ret. apply (Hrest (stdin_read w)).
Qed.



Lemma nth_error_after (A : Type) (l1 l2 : list A) (x : A) :
  nth_error (l1 ++ x :: l2) (List.length l1) = Some x.
Proof.
  rewrite nth_error_app2 by apply Nat.le_refl.
  rewrite Nat.sub_diag. reflexivity.
Qed.

Lemma significant_strings_get (p : path) :
  forall s n, get s p = Some n -> significant_strings [n] <> [] ->
              significant_strings s <> [].
Proof.
  induction p as [|i q IH]; intros s n Hg Hn; [discriminate|].
  rewrite get_cons in Hg.
  destruct (nth_error s i) as [m|] eqn:Hi; [|discriminate].
  apply (significant_strings_In m s (nth_error_In _ _ Hi)).
  destruct q as [|j q']; [congruence|].
  assert (Hm : is_tag m = true) by (eapply get_is_tag_parent; eauto).
  destruct m as [nm pf at_ cs|]; [|discriminate].
  rewrite significant_strings_tag. exact (IH _ _ Hg Hn).
Qed.

Lemma prune_node_kept (n : node) :
  significant_strings [n] <> [] ->
  prune_node n = [set_contents n (prune (node_contents n))].
Proof.
  destruct n as [nm pf at_ cs|k x]; [|reflexivity].
  rewrite significant_strings_tag. intros H. rewrite prune_node_tag.
  destruct (is_empty (Tag nm pf at_ (prune cs))) eqn:He; [|reflexivity].
  exfalso. apply H. apply (prune_tag_gone nm pf at_ cs).
  rewrite prune_node_tag, He. reflexivity.
Qed.

(** A node with a significant string in its subtree is still there after
    pruning, at whatever depth it stood, around its pruned contents. *)
Lemma prune_keeps (p : path) :
  forall s n, get s p = Some n -> significant_strings [n] <> [] ->
              exists p', get (prune s) p'
                         = Some (set_contents n (prune (node_contents n))).
Proof.
  induction p as [|i q IH]; intros s n Hg Hn; [discriminate|].
  rewrite get_cons in Hg.
  destruct (nth_error s i) as [m|] eqn:Hi; [|discriminate].
  pose proof (nth_error_cut _ _ _ _ Hi) as Hs.
  remember (firstn i s) as pre eqn:Hpre.
  remember (skipn (S i) s) as post eqn:Hpost.
  rewrite Hs. clear Hs Hpre Hpost. rewrite prune_app, prune_cons.
  destruct q as [|j q'].
  - inversion Hg; subst m. rewrite (prune_node_kept n Hn).
    exists [List.length (prune pre)]. rewrite get_cons.
    change ([set_contents n (prune (node_contents n))] ++ prune post)
      with (set_contents n (prune (node_contents n)) :: prune post).
    rewrite nth_error_after. reflexivity.
  - assert (Hm : is_tag m = true) by (eapply get_is_tag_parent; eauto).
    destruct (IH _ _ Hg Hn) as [q'' Hq].
    assert (Hms : significant_strings [m] <> []).
    { destruct m as [nm pf at_ cs|]; [|discriminate].
      rewrite significant_strings_tag.
      exact (significant_strings_get _ _ _ Hg Hn). }
    rewrite (prune_node_kept m Hms).
    exists (List.length (prune pre) :: q''). rewrite get_cons.
    change ([set_contents m (prune (node_contents m))] ++ prune post)
      with (set_contents m (prune (node_contents m)) :: prune post).
    rewrite nth_error_after.
    destruct q'' as [|a r]; [discriminate|].
    destruct m as [nm pf at_ cs|]; [|discriminate]. exact Hq.
Qed.

(** * The claims *)

(** ** C1 *)

(** C1, as stated, fails: under the default configuration the tree of
    [<div class="x"><div>Hi</div></div>] does not come out as
    [<div><div>Hi</div></div>]. *)
Lemma scenario_D_outer_div_unwrapped :
  clean_tree Args.default scenario_D
  <> Soup [elem "div" [] [elem "div" [] [text "Hi"]]].
Proof. vm_compute. discriminate. Qed.

(** C1, amended: under the default configuration the Attribute Filter
    takes [class] off the outer [div] before [minimize_nesting] runs; the
    scan then finds the outer [div] to be a wrapper, it is unwrapped and
    the output tree is [<div>Hi</div>].  With [class] among the kept
    attributes the outer [div] is no wrapper and the tree comes out as it
    went in. *)
Theorem scenario_D_result :
  strip_attrs (keep_set Args.default) (root_contents scenario_D)
  = [elem "div" [] [elem "div" [] [text "Hi"]]]
  /\ scan (is_wrapper true)
          (strip_attrs (keep_set Args.default) (root_contents scenario_D))
     = Some [0]
  /\ clean_tree Args.default scenario_D = Soup [elem "div" [] [text "Hi"]]
  /\ scan (is_wrapper true)
          (strip_attrs (keep_set keep_class) (root_contents scenario_D))
     = None
  /\ clean_tree keep_class scenario_D = scenario_D.
Proof. repeat split; vm_compute; reflexivity. Qed.

(** ** C2 *)

(** C2, as stated, fails: the wrapper of [<div> <div>Hi</div>  </div>] is
    what the scan of [minimize_nesting] finds, its one significant child
    is the inner [div], and unwrapping it leaves the two whitespace
    strings in the parent, on either side of the inner [div]. *)
Lemma padded_wrapper_keeps_whitespace :
  scan (is_wrapper true) padded = Some [0]
  /\ option_map _significant_children (get padded [0])
     = Some [elem "div" [] [text "Hi"]]
  /\ unwrap padded [0] <> [elem "div" [] [text "Hi"]]
  /\ minimize_nesting true (Soup padded)
     = Soup [text " "; elem "div" [] [text "Hi"]; text "  "].
Proof.
  split; [reflexivity|]. split; [reflexivity|].
  split; [vm_compute; discriminate|vm_compute; reflexivity].
Qed.

(** C2, amended: when a round of [minimize_nesting] unwraps the wrapper
    [E] its scan found, with [C] the one significant child of [E], the
    child sequence of the parent of [E] has, where [E] stood, all the
    contents of [E] in their order: [C] and the whitespace-only strings
    around it.  [C] is in the new tree as it was, attributes and
    contents. *)
Theorem unwrap_splices_contents (b : bool) (s : list node) (p : path) :
  scan (is_wrapper b) s = Some p ->
  exists pp i E C sibs j,
    p = pp ++ [i]
    /\ get s p = Some E
    /\ is_wrapper b E = true
    /\ children_at s pp = Some sibs
    /\ nth_error sibs i = Some E
    /\ _significant_children E = [C]
    /\ is_tag C = true
    /\ nth_error (node_contents E) j = Some C
    /\ children_at (unwrap s p) pp
       = Some (firstn i sibs ++ node_contents E ++ skipn (S i) sibs)
    /\ get (unwrap s p) (pp ++ [i + j]) = Some C.
Proof.
  intros Hscan. destruct (scan_Some _ _ _ Hscan) as [E [Hg [_ Hw]]].
  assert (Hne : p <> []) by (intros ->; discriminate).
  destruct (path_snoc _ Hne) as [pp [i ->]].
  destruct (wrapper_child _ _ Hw) as [C [j [Hs [Ht Hj]]]].
  destruct (unwrap_splice pp _ _ _ _ _ Hg Hj) as [sibs [H1 [H2 [H3 H4]]]].
  exists pp, i, E, C, sibs, j. repeat split; assumption.
Qed.

Lemma unwrap_splices_contents_witness :
  exists pp i E C sibs j,
    [0] = pp ++ [i]
    /\ get padded [0] = Some E
    /\ is_wrapper true E = true
    /\ children_at padded pp = Some sibs
    /\ nth_error sibs i = Some E
    /\ _significant_children E = [C]
    /\ is_tag C = true
    /\ nth_error (node_contents E) j = Some C
    /\ children_at (unwrap padded [0]) pp
       = Some (firstn i sibs ++ node_contents E ++ skipn (S i) sibs)
    /\ get (unwrap padded [0]) (pp ++ [i + j]) = Some C.
Proof. apply (unwrap_splices_contents true padded [0]). reflexivity. Defined.

(** ** C3 *)

Lemma unwrap_in_order_collapse (b : bool) (choice : list path) :
  forall s t, unwrap_in_order b choice s = Some t -> collapse b t = collapse b s.
Proof.
  induction choice as [|p rest IH]; intros s t H; simpl in H.
  - inversion H. reflexivity.
  - unfold holds_at in H. destruct (get s p) as [n|] eqn:Hg; [|discriminate].
    destruct (is_wrapper b n) eqn:Hw; [|discriminate].
    rewrite (IH _ _ H). exact (collapse_unwrap _ _ _ _ Hg Hw).
Qed.

(** The rounds of [minimize_nesting] are one such run. *)
Lemma minimize_loop_run (b : bool) (rounds : nat) :
  forall s, exists choice,
    unwrap_in_order b choice s = Some (fst (minimize_loop rounds b s)).
Proof.
  induction rounds as [|r IH]; intros s; [exists []; reflexivity|].
  simpl. destruct (scan (is_wrapper b) s) as [p|] eqn:Hscan;
    [|exists []; reflexivity].
  destruct (scan_Some _ _ _ Hscan) as [n [Hg [_ Hw]]].
  destruct (IH (unwrap s p)) as [choice Hc].
  exists (p :: choice). simpl. unfold holds_at. rewrite Hg, Hw.
  destruct (minimize_loop r b (unwrap s p)). exact Hc.
Qed.

(** C3: whatever wrappers are chosen for unwrapping and in whatever
    order, for either setting of [same_name_only], two runs of the
    Wrapper Collapser from the same tree that both end on a tree without
    wrappers end on the same tree, and that tree is the one
    [minimize_nesting] returns (itself the end of such a run,
    [minimize_loop_run] and [minimize_loop_exit]). *)
Theorem minimize_nesting_order_independent (b : bool) (s : list node)
  (choice1 choice2 : list path) (t1 t2 : list node) :
  unwrap_in_order b choice1 s = Some t1 ->
  unwrap_in_order b choice2 s = Some t2 ->
  scan (is_wrapper b) t1 = None ->
  scan (is_wrapper b) t2 = None ->
  t1 = t2 /\ minimize_nesting b (Soup s) = Soup t1.
Proof.
  intros H1 H2 N1 N2.
  apply unwrap_in_order_collapse in H1. apply unwrap_in_order_collapse in H2.
  rewrite (collapse_fixed _ _ N1) in H1. rewrite (collapse_fixed _ _ N2) in H2.
  rewrite minimize_nesting_collapse. split; congruence.
Qed.

Lemma minimize_nesting_order_independent_witness :
  unwrap_in_order true [[0]; [0]] nested3 = Some [elem "div" [] [text "Hi"]]
  /\ unwrap_in_order true [[0; 0]; [0]] nested3
     = Some [elem "div" [] [text "Hi"]]
  /\ [elem "div" [] [text "Hi"]] = [elem "div" [] [text "Hi"]]
  /\ minimize_nesting true (Soup nested3) = Soup [elem "div" [] [text "Hi"]].
Proof.
  split; [reflexivity|]. split; [reflexivity|].
  apply (minimize_nesting_order_independent true nested3
           [[0]; [0]] [[0; 0]; [0]]); reflexivity.
Defined.

(** ** C4 *)

(** C4, as stated, fails: under the default configuration the pipeline
    turns [<div><div>Hi</div><p></p></div>] into [<div><div>Hi</div></div>]
    (the empty [p] is pruned after the wrappers were looked for), and a
    second application turns that into [<div>Hi</div>]. *)
Lemma clean_tree_not_idempotent :
  clean_tree Args.default exposed
  = Soup [elem "div" [] [elem "div" [] [text "Hi"]]]
  /\ clean_tree Args.default (clean_tree Args.default exposed)
     = Soup [elem "div" [] [text "Hi"]]
  /\ clean_tree Args.default (clean_tree Args.default exposed)
     <> clean_tree Args.default exposed.
Proof.
  split; [vm_compute; reflexivity|].
  split; [vm_compute; reflexivity|vm_compute; discriminate].
Qed.

Lemma clean_tree_again (args : Args.t) (s : list node) :
  cleaned args s -> clean_tree args (Soup s) = Soup (back args s).
Proof. intros H. rewrite clean_tree_passes, (front_fixed _ _ H). reflexivity. Qed.

(** C4, amended: for every configuration in which [minimize_nesting] or
    [remove_empty] is off, applying the pipeline to its own result gives
    that result again.  With both on, the second application can still
    unwrap the wrappers that pruning exposed; for every configuration the
    result of the second application is a fixed point of the pipeline. *)
Theorem clean_tree_stabilizes (args : Args.t) (soup : BeautifulSoup) :
  (Args.minimize_nesting args && Args.remove_empty args = false ->
   clean_tree args (clean_tree args soup) = clean_tree args soup)
  /\ clean_tree args (clean_tree args (clean_tree args soup))
     = clean_tree args (clean_tree args soup).
Proof.
  destruct soup as [s].
  pose proof (clean_tree_cleaned args (Soup s)) as Hc1.
  rewrite clean_tree_passes in *. simpl root_contents in Hc1.
  rewrite (clean_tree_again _ _ Hc1).
  pose proof (back_cleaned _ _ Hc1) as Hc2.
  rewrite (clean_tree_again _ _ Hc2).
  split.
  - intros E. rewrite (back_once _ _ E). reflexivity.
  - rewrite back_twice. reflexivity.
Qed.

Lemma clean_tree_stabilizes_witness :
  clean_tree prune_off (clean_tree prune_off exposed)
  = clean_tree prune_off exposed.
Proof.
  apply (proj1 (clean_tree_stabilizes prune_off exposed)). reflexivity.
Defined.

(** ** C5 *)

(** C5: in the output tree of the pipeline, for every input tree and
    configuration, the attribute names of every node are in the keep-set;
    with an empty keep-set no node has an attribute. *)
Theorem attribute_allow_list_closure (args : Args.t) (soup : BeautifulSoup)
  (p : path) (n : node) :
  get (root_contents (clean_tree args soup)) p = Some n ->
  (forall k v, In (k, v) (node_attrs n) -> In k (keep_set args))
  /\ (keep_set args = [] -> node_attrs n = []).
Proof.
  intros Hg.
  destruct (clean_tree_cleaned args soup) as [_ [_ H]].
  pose proof (proj1 (all_forest_get _ _) H p n Hg) as Hn.
  unfold attrs_within in Hn. rewrite forallb_forall in Hn.
  assert (Hall : forall k v, In (k, v) (node_attrs n) -> In k (keep_set args)).
  { intros k v Hin. apply mem_In. exact (Hn _ Hin). }
  split; [exact Hall|].
  intros E. destruct (node_attrs n) as [|[k v] r]; [reflexivity|].
  exfalso. rewrite E in Hall. exact (Hall k v (or_introl eq_refl)).
Qed.

Lemma attribute_allow_list_closure_witness :
  get (root_contents (clean_tree Args.default link)) [0]
  = Some (elem "a" [("href", AttrStr "u")] [text "t"])
  /\ (forall k v,
         In (k, v) (node_attrs (elem "a" [("href", AttrStr "u")] [text "t"])) ->
         In k (keep_set Args.default))
  /\ (keep_set Args.default = [] ->
      node_attrs (elem "a" [("href", AttrStr "u")] [text "t"]) = []).
Proof.
  split; [reflexivity|].
  apply (attribute_allow_list_closure Args.default link [0]). reflexivity.
Defined.

(** ** C6 *)

(** C6: in the output tree of the pipeline, for every input tree and
    configuration, no tag bears a name of [remove_tag]; and the Tag
    Remover deletes an element of such a name with its whole subtree: its
    result is the one it has on the tree from which that subtree was cut
    out beforehand. *)
Theorem no_residual_removed_tags (args : Args.t) (soup : BeautifulSoup) :
  (forall p n name,
      get (root_contents (clean_tree args soup)) p = Some n ->
      In name (Args.remove_tag args) -> node_name n <> Some name)
  /\ (forall p E name,
         get (root_contents soup) p = Some E ->
         In name (Args.remove_tag args) -> node_name E = Some name ->
         remove_tags (Args.remove_tag args) (root_contents soup)
         = remove_tags (Args.remove_tag args)
                       (decompose (root_contents soup) p)).
Proof.
  split.
  - intros p n name Hg Hin Hn.
    destruct (clean_tree_cleaned args soup) as [H _].
    pose proof (proj1 (all_forest_get _ _) H p n Hg) as Hm.
    cbv beta in Hm. rewrite (matches_any_name _ _ n Hin Hn) in Hm. discriminate.
  - intros p E name Hg Hin Hn. rewrite !remove_tags_any. symmetry.
    apply (remove_nodes_decompose _ p
             (by_name_shallow _ (matches_any_by_name _)) _ _ Hg).
    exact (matches_any_name _ _ E Hin Hn).
Qed.

Lemma no_residual_removed_tags_witness :
  node_name (elem "a" [("href", AttrStr "u")] [text "t"]) <> Some "span"
  /\ remove_tags (Args.remove_tag Args.default) (root_contents link)
     = remove_tags (Args.remove_tag Args.default)
                   (decompose (root_contents link) [0; 0]).
Proof.
  split.
  - apply (proj1 (no_residual_removed_tags Args.default link) [0]).
    + reflexivity.
    + simpl. right. left. reflexivity.
  - apply (proj2 (no_residual_removed_tags Args.default link) [0; 0]
                 (elem "span" [] [text "x"]) "span").
    + reflexivity.
    + simpl. right. left. reflexivity.
    + reflexivity.
Defined.

(** ** C7 *)

Lemma clean_tree_empty (args : Args.t) : clean_tree args (Soup []) = Soup [].
Proof.
  rewrite clean_tree_passes. unfold back, front.
  destruct (Args.remove_comments args), (Args.minimize_nesting args),
    (Args.remove_empty args); reflexivity.
Qed.

(** C7: in the tree [remove_empty_tags] returns every tag has a
    significant child.  The root is no candidate of the scan and stays:
    a root with no significant child comes back with its contents as they
    were, and on the empty document the whole pipeline returns the empty
    document, for every configuration. *)
Theorem pruner_fixed_point (soup : BeautifulSoup) :
  (forall p n,
      get (root_contents (remove_empty_tags soup)) p = Some n ->
      is_tag n = true -> _significant_children n <> [])
  /\ ~ In [] (find_all_True (root_contents soup))
  /\ (filter (fun c => negb (insignificant c)) (root_contents soup) = [] ->
      remove_empty_tags soup = soup)
  /\ (forall args, clean_tree args (Soup []) = Soup []).
Proof.
  destruct soup as [s]. simpl root_contents.
  split; [|split; [|split]].
  - intros p n Hg Ht He.
    pose proof (proj1 (scan_None _ _) (remove_empty_loop_exit s) p n Hg Ht) as H.
    unfold is_empty in H. rewrite He in H. discriminate.
  - intros H. apply find_all_True_spec in H. destruct H as [n [H _]].
    discriminate.
  - intros H. rewrite remove_empty_tags_prune, (prune_insignificant _ H).
    reflexivity.
  - exact clean_tree_empty.
Qed.

Lemma pruner_fixed_point_witness :
  _significant_children (elem "div" [] [text "Hi"]) <> []
  /\ remove_empty_tags (Soup [text " "]) = Soup [text " "].
Proof.
  split.
  - apply (proj1 (pruner_fixed_point
                    (Soup [elem "div" [] [text "Hi"]; elem "p" [] []])) [0]);
      reflexivity.
  - apply (proj1 (proj2 (proj2 (pruner_fixed_point (Soup [text " "]))))).
    reflexivity.
Defined.

(** ** C8 *)

(** C8: every unwrap takes one node off the tree and every deletion of an
    empty tag at least one.  Run for one round more than the tree has
    nodes, each loop leaves by its own test (further rounds change
    nothing), after at most as many mutations as the tree has nodes, on a
    tree with no more nodes than before; [minimize_nesting] loses exactly
    one node for each unwrap. *)
Theorem loops_terminate_and_shrink (b : bool) (s : list node) :
  (forall p n, get s p = Some n -> is_tag n = true ->
               S (forest_size (unwrap s p)) = forest_size s)
  /\ (forall p n, get s p = Some n ->
                  forest_size (decompose s p) < forest_size s)
  /\ (let r := minimize_loop (S (forest_size s)) b s in
      scan (is_wrapper b) (fst r) = None
      /\ forest_size (fst r) + snd r = forest_size s
      /\ snd r <= forest_size s
      /\ forest_size (fst r) <= forest_size s
      /\ forall extra,
           minimize_loop (S (forest_size s) + extra) b s = r)
  /\ (let r := remove_empty_loop (S (forest_size s)) s in
      scan is_empty (fst r) = None
      /\ forest_size (fst r) + snd r <= forest_size s
      /\ snd r <= forest_size s
      /\ forest_size (fst r) <= forest_size s
      /\ forall extra,
           remove_empty_loop (S (forest_size s) + extra) s = r).
Proof.
  split; [|split; [|split]].
  - intros p n Hg Ht. exact (unwrap_size _ _ _ Hg Ht).
  - intros p n Hg. pose proof (decompose_size _ _ _ Hg) as H.
    pose proof (node_size_pos n). lia.
  - cbv zeta.
    destruct (minimize_loop_spec b (S (forest_size s)) s) as [H1 H2]; [lia|].
    repeat split; [exact H1|exact H2|lia|lia|].
    intros extra. apply minimize_loop_rounds; lia.
  - cbv zeta.
    destruct (remove_empty_loop_spec (S (forest_size s)) s) as [H1 H2]; [lia|].
    repeat split; [exact H1|exact H2|lia|lia|].
    intros extra. apply remove_empty_loop_rounds; lia.
Qed.

Lemma loops_terminate_and_shrink_witness :
  S (forest_size (unwrap nested3 [0; 0])) = forest_size nested3
  /\ forest_size (decompose nested3 [0; 0]) < forest_size nested3.
Proof.
  split.
  - apply (proj1 (loops_terminate_and_shrink true nested3) [0; 0]
                 (elem "div" [] [elem "div" [] [text "Hi"]]));
      reflexivity.
  - apply (proj1 (proj2 (loops_terminate_and_shrink true nested3)) [0; 0]
                 (elem "div" [] [elem "div" [] [text "Hi"]])).
    reflexivity.
Defined.

(** ** C9 *)

(** C9, as stated, fails: a [Comment] is a [NavigableString], and one
    whose payload is whitespace only is not significant.  With comment
    removal off, [<p><!-- --></p>] is deleted by the pipeline, and the
    blank comment of [<div><!-- --><div>Hi</div></div>] does not keep the
    outer [div] from being unwrapped. *)
Lemma blank_comment_not_significant :
  insignificant (comment " ") = true
  /\ clean_tree keep_comments blank_comment_only = Soup []
  /\ clean_tree keep_comments blank_comment_wrapper
     = Soup [comment " "; elem "div" [] [text "Hi"]].
Proof.
  split; [reflexivity|]. split; vm_compute; reflexivity.
Qed.

(** C9, amended: the significance test takes a [Comment] like any other
    string node: a string node of any class is insignificant exactly when
    its payload is empty or all whitespace, and a tag never is.  So, the
    comments being still in the tree, an element whose only child is a
    [Comment] is no wrapper, and the Empty Element Pruner deletes it
    exactly when the payload of the comment is empty or all whitespace,
    wherever in the tree it stands: with such a payload the pruned tree
    is the one got with the element cut out beforehand, with another
    payload the element is still in the pruned tree.  A [Comment] with a
    character that is no whitespace, anywhere among the children of an
    element, keeps that element from being a wrapper. *)
Theorem comment_significance (b : bool) (k : string_class) (payload : pystr)
  (nm : string) (pf : option string) (at_ : attrs_t) (cs pre post : list node)
  (s : list node) (p : path) :
  insignificant (NavigableString k payload) = forallb py_isspace payload
  /\ insignificant (Tag nm pf at_ cs) = false
  /\ is_wrapper b (Tag nm pf at_ [NavigableString Comment payload]) = false
  /\ is_empty (Tag nm pf at_ [NavigableString Comment payload])
     = forallb py_isspace payload
  /\ remove_empty_tags (Soup [Tag nm pf at_ [NavigableString Comment payload]])
     = (if forallb py_isspace payload then Soup []
        else Soup [Tag nm pf at_ [NavigableString Comment payload]])
  /\ (forallb py_isspace payload = false ->
      is_wrapper b (Tag nm pf at_
                        (pre ++ NavigableString Comment payload :: post))
      = false)
  /\ (get s p = Some (Tag nm pf at_ [NavigableString Comment payload]) ->
      forallb py_isspace payload = true ->
      remove_empty_tags (Soup s) = remove_empty_tags (Soup (decompose s p)))
  /\ (get s p = Some (Tag nm pf at_ [NavigableString Comment payload]) ->
      forallb py_isspace payload = false ->
      exists p',
        get (root_contents (remove_empty_tags (Soup s))) p'
        = Some (Tag nm pf at_ [NavigableString Comment payload])).
Proof.
  pose proof (insignificant_string Comment payload) as Hc.
  assert (He : is_empty (Tag nm pf at_ [NavigableString Comment payload])
               = forallb py_isspace payload).
  { unfold is_empty, _significant_children. cbn [node_contents filter].
    rewrite Hc. destruct (forallb py_isspace payload); reflexivity. }
  split; [apply insignificant_string|]. split; [reflexivity|].
  split; [|split; [exact He|split; [|split; [|split]]]].
  - unfold is_wrapper, _significant_children. cbn [node_contents filter].
    destruct (negb (insignificant (NavigableString Comment payload)));
      reflexivity.
  - rewrite remove_empty_tags_prune. unfold prune. cbn [flat_map].
    rewrite prune_node_tag. unfold prune. cbn [flat_map prune_node app].
    rewrite He. destruct (forallb py_isspace payload); reflexivity.
  - intros Hp.
    apply (significant_string_blocks b nm pf at_ _
             (NavigableString Comment payload)).
    + apply in_elt.
    + reflexivity.
    + rewrite Hc. exact Hp.
  - intros Hg Hp. rewrite !remove_empty_tags_prune. f_equal. symmetry.
    apply (prune_decompose p s _ Hg); [reflexivity|].
    rewrite He. exact Hp.
  - intros Hg Hp. rewrite remove_empty_tags_prune. simpl root_contents.
    assert (Hs : significant_strings
                   [Tag nm pf at_ [NavigableString Comment payload]] <> []).
    { unfold significant_strings, strings_of.
      cbn [flat_map strings_of_node app filter]. rewrite Hc, Hp.
      discriminate. }
    destruct (prune_keeps p s _ Hg Hs) as [p' Hp']. exists p'.
    exact Hp'.
Qed.

Lemma comment_significance_witness :
  is_wrapper true
    (elem "div" [] ([] ++ comment "note" :: [elem "div" [] [text "Hi"]]))
  = false
  /\ remove_empty_tags (Soup [elem "div" [] [elem "p" [] [comment " "];
                                             text "t"]])
     = remove_empty_tags
         (Soup (decompose [elem "div" [] [elem "p" [] [comment " "]; text "t"]]
                          [0; 0]))
  /\ exists p',
       get (root_contents
              (remove_empty_tags
                 (Soup [elem "div" [] [elem "p" [] []; elem "p" [] [comment "note"]]])))
           p'
       = Some (elem "p" [] [comment "note"]).
Proof.
  split; [|split].
  - apply (proj1 (proj2 (proj2 (proj2 (proj2 (proj2
             (comment_significance true Comment (py "note") "div" None []
                [] [] [elem "div" [] [text "Hi"]] [] []))))))).
    reflexivity.
  - apply (proj1 (proj2 (proj2 (proj2 (proj2 (proj2 (proj2
             (comment_significance true Comment (py " ") "p" None []
                [] [] []
                [elem "div" [] [elem "p" [] [comment " "]; text "t"]]
                [0; 0])))))))); reflexivity.
  - apply (proj2 (proj2 (proj2 (proj2 (proj2 (proj2 (proj2
             (comment_significance true Comment (py "note") "p" None []
                [] [] []
                [elem "div" [] [elem "p" [] []; elem "p" [] [comment "note"]]]
                [0; 1])))))))); reflexivity.
Defined.


(** * Further properties *)



(** X2: the three passes before the loops can run in any order: the Tag
    Remover, the Comment Remover and the Attribute Filter commute with
    one another. *)
Theorem front_passes_commute (names keep : list string) (s : list node) :
  remove_comments (remove_tags names s) = remove_tags names (remove_comments s)
  /\ strip_attrs keep (remove_tags names s)
     = remove_tags names (strip_attrs keep s)
  /\ strip_attrs keep (remove_comments s)
     = remove_comments (strip_attrs keep s).
Proof.
  unfold remove_comments. rewrite !remove_tags_any. repeat split.
  - rewrite !remove_nodes_twice.
    + apply remove_nodes_ext. intros n. apply orb_comm.
    + apply by_name_shallow, matches_any_by_name.
    + apply by_name_shallow, found_comment_by_name.
  - symmetry. apply remove_nodes_strip_attrs, matches_any_by_name.
  - symmetry. apply remove_nodes_strip_attrs, found_comment_by_name.
Qed.

(** X3: [minimize_nesting] loses, adds and moves no string: the string
    nodes of the tree, in document order, are the same before and after,
    whitespace included. *)
Theorem minimize_nesting_keeps_strings (b : bool) (soup : BeautifulSoup) :
  strings_of (root_contents (minimize_nesting b soup))
  = strings_of (root_contents soup).
Proof.
  destruct soup as [s]. rewrite minimize_nesting_collapse.
  apply collapse_strings.
Qed.

(** X4: [remove_empty_tags] deletes whitespace only: the significant
    strings of the tree, in document order, are the same before and
    after. *)
Theorem remove_empty_tags_keeps_significant_strings (soup : BeautifulSoup) :
  significant_strings (root_contents (remove_empty_tags soup))
  = significant_strings (root_contents soup).
Proof.
  destruct soup as [s]. rewrite remove_empty_tags_prune.
  apply prune_significant_strings.
Qed.

(** X5: [remove_empty_tags] works on every top-level subtree by itself,
    and a tag goes exactly when no string below it is significant,
    whatever its name and attributes (so every tag without contents
    goes); otherwise it stays, with its name and attributes, around its
    pruned contents. *)
Theorem remove_empty_tags_by_subtree (pre post cs : list node) (nm : string)
  (pf : option string) (at_ : attrs_t) :
  root_contents (remove_empty_tags (Soup (pre ++ Tag nm pf at_ cs :: post)))
  = root_contents (remove_empty_tags (Soup pre))
    ++ match significant_strings cs with
       | [] => []
       | _ :: _ =>
           [Tag nm pf at_ (root_contents (remove_empty_tags (Soup cs)))]
       end
    ++ root_contents (remove_empty_tags (Soup post)).
Proof.
  rewrite !remove_empty_tags_prune. simpl root_contents.
  rewrite prune_app, prune_cons. do 2 f_equal.
  destruct (significant_strings cs) as [|c r] eqn:Hs.
  - apply prune_tag_gone. exact Hs.
  - rewrite prune_node_tag.
    destruct (is_empty (Tag nm pf at_ (prune cs))) eqn:He; [|reflexivity].
    assert (H : prune_node (Tag nm pf at_ cs) = [])
      by (rewrite prune_node_tag, He; reflexivity).
    apply prune_tag_gone in H. congruence.
Qed.

(** X6: the unwraps [minimize_nesting] makes are as many as the input
    tree has wrappers: unwrapping one wrapper neither makes a wrapper of
    another tag nor stops another tag from being one. *)
Theorem minimize_nesting_unwraps_the_wrappers (b : bool) (s : list node) :
  snd (minimize_loop (S (forest_size s)) b s) = count_found (is_wrapper b) s.
Proof.
  destruct (minimize_loop_spec b (S (forest_size s)) s) as [_ H]; [lia|].
  rewrite minimize_loop_collapse in H by lia.
  pose proof (collapse_size b s) as Hc.
  rewrite count_found_forest. lia.
Qed.

(** X7: with [same_name_only] on, [minimize_nesting] makes no tag name
    disappear from the tree, and brings none in. *)
Theorem same_name_unwrapping_keeps_tag_names (soup : BeautifulSoup)
  (x : string) :
  In x (tag_names (root_contents (minimize_nesting true soup)))
  <-> In x (tag_names (root_contents soup)).
Proof.
  destruct soup as [s]. rewrite minimize_nesting_collapse.
  apply collapse_tag_names.
Qed.

Lemma same_name_unwrapping_keeps_tag_names_witness :
  In "div" (tag_names (root_contents (minimize_nesting true (Soup nested3)))).
Proof.
  apply (proj2 (same_name_unwrapping_keeps_tag_names (Soup nested3) "div")).
  simpl. left. reflexivity.
Defined.

(** X8: [minimize_nesting] never makes the tree deeper. *)
Theorem minimize_nesting_depth (b : bool) (soup : BeautifulSoup) :
  depth (root_contents (minimize_nesting b soup))
  <= depth (root_contents soup).
Proof.
  destruct soup as [s]. rewrite minimize_nesting_collapse.
  apply collapse_depth.
Qed.

(** X9: [minimize_nesting] never unwraps a tag that has an attribute: the
    tags with attributes, each with its name and attributes, are the same
    and in the same order before and after. *)
Theorem minimize_nesting_keeps_attributed_tags (b : bool)
  (soup : BeautifulSoup) :
  attributed (root_contents (minimize_nesting b soup))
  = attributed (root_contents soup).
Proof.
  destruct soup as [s]. rewrite minimize_nesting_collapse.
  apply collapse_attributed.
Qed.

(** X10: each loop is idempotent: [minimize_nesting] finds nothing to
    unwrap in its own result, [remove_empty_tags] nothing to delete in
    its own. *)
Theorem loops_idempotent (b : bool) (soup : BeautifulSoup) :
  minimize_nesting b (minimize_nesting b soup) = minimize_nesting b soup
  /\ remove_empty_tags (remove_empty_tags soup) = remove_empty_tags soup.
Proof.
  destruct soup as [s]. split.
  - rewrite !minimize_nesting_collapse.
    rewrite (collapse_fixed b (collapse b s)) by apply collapse_normal.
    reflexivity.
  - rewrite !remove_empty_tags_prune.
    rewrite (prune_fixed (prune s)) by apply prune_normal.
    reflexivity.
Qed.

(** X11: the Attribute Filter and the two loops lose no significant
    string: the significant strings of the output tree of the pipeline,
    in document order, are those the Tag Remover and, when it runs, the
    Comment Remover left. *)
Theorem clean_tree_significant_strings (args : Args.t) (soup : BeautifulSoup) :
  significant_strings (root_contents (clean_tree args soup))
  = significant_strings
      (let s := remove_tags (Args.remove_tag args) (root_contents soup) in
       if Args.remove_comments args then remove_comments s else s).
Proof.
  destruct soup as [s]. rewrite clean_tree_passes. simpl root_contents.
  rewrite back_significant_strings. unfold front.
  cbv zeta. rewrite remove_tags_any. unfold remove_comments.
  unfold significant_strings. rewrite strip_attrs_strings. reflexivity.
Qed.

(** X12: [parse_args] returns exactly when one source of input is there
    (a non-empty [--input] or a piped standard input, not both), the
    input path, if given, is a file, and the output path, if given, is
    neither a directory nor an existing path.  It then hands back the
    namespace as it was and reports the two targets; otherwise it raises
    and has put out no result. *)
Theorem parse_args_accepts (w : World) (args : Namespace.t) :
  (acceptable w args = true ->
   parse_args w args
   = ([Stderr ("input: " ++ or_else (Namespace.input args) "<stdin>");
       Stderr ("output: " ++ or_else (Namespace.output args) "-")],
      inr args))
  /\ (acceptable w args = false ->
      exists tr e, parse_args w args = (tr, inl e)
                   /\ filter is_output tr = []).
Proof.
  destruct (parse_args_cases w args) as [[Ha H]|[Ha H]]; split; intros E;
    try congruence; exact H.
Qed.

Lemma parse_args_accepts_witness :
  parse_args at_terminal
    (Namespace.Make (Some "in.html") (Some "new.html") Args.default)
  = ([Stderr "input: in.html"; Stderr "output: new.html"],
     inr (Namespace.Make (Some "in.html") (Some "new.html") Args.default))
  /\ exists tr e,
       parse_args at_terminal
         (Namespace.Make (Some "in.html") (Some "old.html") Args.default)
       = (tr, inl e)
       /\ filter is_output tr = [].
Proof.
  split.
  - apply (proj1 (parse_args_accepts at_terminal
             (Namespace.Make (Some "in.html") (Some "new.html") Args.default))).
    reflexivity.
  - apply (proj2 (parse_args_accepts at_terminal
             (Namespace.Make (Some "in.html") (Some "old.html") Args.default))).
    reflexivity.
Defined.

(** X13: [main] never writes over what is there: the only file it opens
    for writing, and the only one it writes to, is the one named by
    [--output], and only when that path was found to be no directory and
    not to exist. *)
Theorem main_never_overwrites
  (parse : string -> string -> BeautifulSoup)
  (prettify to_str : BeautifulSoup -> string)
  (w : World) (args : Namespace.t) (p content : string) :
  (In (FileWrite p content) (fst (main parse prettify to_str w args)) ->
   Namespace.output args = Some p
   /\ path_exists w p = false
   /\ isdir w p = false)
  /\ (In (FileOpen p) (fst (main parse prettify to_str w args)) ->
      Namespace.output args = Some p
      /\ path_exists w p = false
      /\ isdir w p = false).
Proof.
  destruct (acceptable w args) eqn:Ha.
  - rewrite (main_accepted _ _ _ _ _ Ha).
    pose proof (deliver_events parse prettify to_str w args) as Hev.
    destruct (deliver parse prettify to_str w args) as [tr r].
    simpl fst in *.
    split; intros Hin;
      (destruct Hin as [Hin|[Hin|Hin]]; try discriminate Hin;
       pose proof (Hev _ Hin) as Ho; cbv beta iota in Ho;
       destruct (acceptable_output _ _ _ Ha Ho); auto).
  - destruct (main_rejected parse prettify to_str _ _ Ha)
      as [tr [e [H Ho]]].
    rewrite H. simpl.
    split; intros Hin;
      (assert (Hf : In _ (filter is_output tr))
         by (apply filter_In; split; [exact Hin|reflexivity]);
       rewrite Ho in Hf; contradiction).
Qed.

Lemma main_never_overwrites_witness :
  (Namespace.output
     (Namespace.Make (Some "in.html") (Some "new.html") Args.default)
   = Some "new.html"
   /\ path_exists at_terminal "new.html" = false
   /\ isdir at_terminal "new.html" = false)
  /\ (Namespace.output
        (Namespace.Make (Some "in.html") (Some "new.html") Args.default)
      = Some "new.html"
      /\ path_exists unencodable "new.html" = false
      /\ isdir unencodable "new.html" = false).
Proof.
  split.
  - apply (proj1 (main_never_overwrites constant_parse count_top count_top
                    at_terminal
                    (Namespace.Make (Some "in.html") (Some "new.html")
                                    Args.default)
                    "new.html" "*")).
    simpl. right. right. right. left. reflexivity.
  - apply (proj2 (main_never_overwrites constant_parse count_top count_top
                    unencodable
                    (Namespace.Make (Some "in.html") (Some "new.html")
                                    Args.default)
                    "new.html" "*")).
    simpl. right. right. left. reflexivity.
Defined.


(** X15: an empty [--input] path counts as none: with [-i ""] the run is
    the one without [--input], reading the standard input. *)
Theorem empty_input_path_is_stdin
  (parse : string -> string -> BeautifulSoup)
  (prettify to_str : BeautifulSoup -> string)
  (w : World) (o : option string) (opts : Args.t) :
  main parse prettify to_str w (Namespace.Make (Some EmptyString) o opts)
  = main parse prettify to_str w (Namespace.Make None o opts).
Proof.
  unfold main, parse_args, read_input.
  cbn [Namespace.input Namespace.output Namespace.options given path_of
       or_else].
  destruct (stdin_isatty w); [reflexivity|].
  destruct o as [out|]; [|reflexivity].
  destruct (isdir w out); [reflexivity|].
  destruct (path_exists w out); reflexivity.
Qed.

(** X16: every tag [remove_empty_tags] leaves has a significant string
    somewhere below it. *)
Theorem remove_empty_tags_leaves_text (soup : BeautifulSoup) (p : path)
  (n : node) :
  get (root_contents (remove_empty_tags soup)) p = Some n ->
  is_tag n = true ->
  significant_strings [n] <> [].
Proof.
  destruct soup as [s]. intros Hg Ht.
  apply nonempty_tag_has_text; [|exact Ht].
  apply (all_nodes_get _ p (root_contents (remove_empty_tags (Soup s))));
    [|exact Hg].
  apply scan_None_no_tag, remove_empty_loop_exit.
Qed.

Lemma remove_empty_tags_leaves_text_witness :
  significant_strings [elem "b" [] [text "x"]] <> [].
Proof.
  apply (remove_empty_tags_leaves_text (Soup gallery) [0; 0]); reflexivity.
Defined.

(** X17: run in the other order, the two loops end on a tree that both
    leave as it is: unwrapping leaves no tag empty that was not, so
    after [remove_empty_tags] and then [minimize_nesting] there is
    neither a wrapper nor an empty tag. *)
Theorem prune_then_minimize_is_stable (b : bool) (soup : BeautifulSoup) :
  minimize_nesting b (minimize_nesting b (remove_empty_tags soup))
  = minimize_nesting b (remove_empty_tags soup)
  /\ remove_empty_tags (minimize_nesting b (remove_empty_tags soup))
     = minimize_nesting b (remove_empty_tags soup).
Proof.
  destruct soup as [s].
  rewrite remove_empty_tags_prune, !minimize_nesting_collapse,
    remove_empty_tags_prune.
  split.
  - rewrite (collapse_fixed b (collapse b (prune s)))
      by apply collapse_normal.
    reflexivity.
  - rewrite (prune_fixed (collapse b (prune s)))
      by apply collapse_keeps_nonempty, prune_normal.
    reflexivity.
Qed.

(** X18: the output of [clean_html] depends on [remove_tag] and
    [keep_attr] through their members only: under two configurations with
    the same parser, the same flags and the same names in the two lists,
    in whatever order and however often repeated, it returns the same
    string. *)
Theorem option_order_irrelevant
  (parse : string -> string -> BeautifulSoup)
  (prettify to_str : BeautifulSoup -> string)
  (a1 a2 : Args.t) (html : string) :
  same_config a1 a2 = true ->
  clean_html parse prettify to_str html a1
  = clean_html parse prettify to_str html a2.
Proof.
  intros Hc. unfold clean_html.
  rewrite (clean_tree_members _ _ _ Hc).
  destruct (same_config_fields _ _ Hc) as [Hp [_ [_ [_ [_ [_ [_ Hpr]]]]]]].
  rewrite Hp, Hpr. reflexivity.
Qed.

Lemma option_order_irrelevant_witness :
  same_config Args.default default_shuffled = true
  /\ clean_html constant_parse count_top count_top "<a>" Args.default
     = clean_html constant_parse count_top count_top "<a>" default_shuffled.
Proof.
  split; [reflexivity|].
  apply (option_order_irrelevant constant_parse count_top count_top
           Args.default default_shuffled "<a>").
  reflexivity.
Defined.
